(** * hid-cougar: the Cougar 500k keyboard driver, embedded and verified

    A shallow embedding of [src/module/src/hid-cougar.c].  The driver's
    global data (the key map, the list of shared per-device objects) and the
    objects it allocates live in an explicit [world]; every driver function
    is a function on that world.  Reads through a pointer that is not live
    and reads past the end of a buffer are results of their own ([Fault]),
    so that "the code never does that" is a statement one can prove.

    The calls of the driver are taken one at a time: [cougar_udev_list_lock]
    and what it protects against are not part of the model. *)

From Stdlib Require Import ZArith Lia Ascii String.
From stdpp Require Import gmap strings list fin_maps.
Open Scope Z_scope.

(** ** Results of code that can go wrong *)

Inductive fault :=
  | BadPointer    (* a NULL or dangling pointer is dereferenced *)
  | OutOfBounds.  (* an array is read past its last element *)

Inductive res (A : Type) :=
  | Ok (a : A)
  | Fault (f : fault).
Arguments Ok {A} a.
Arguments Fault {A} f.

#[global] Instance res_ret : MRet res := fun A a => Ok a.
#[global] Instance res_bind : MBind res :=
  fun A B k m => match m with Ok a => k a | Fault f => Fault f end.

Definition deref {A} (o : option A) : res A :=
  match o with Some a => Ok a | None => Fault BadPointer end.

Definition index {A} (l : list A) (i : nat) : res A :=
  match l !! i with Some a => Ok a | None => Fault OutOfBounds end.

Definition is_ok {A} (r : res A) : bool :=
  match r with Ok _ => true | Fault _ => false end.

(** ** Machine integers *)

(** Conversion to [int] (32 bits, two's complement) and to [unsigned char]. *)
Definition to_int (z : Z) : Z := (z + 2 ^ 31) mod 2 ^ 32 - 2 ^ 31.
Definition to_u8 (z : Z) : Z := z mod 256.

(** ** Constants of the kernel headers

    The driver is compiled against [linux/hid.h] and
    [uapi/linux/input-event-codes.h], which are not part of the repository;
    the values below are the ones of those headers.  The descriptor fixup
    is defined for every bound, of which [HID_MAX_USAGES] is the kernel's. *)
Module Linux.
Definition ENOMEM : Z := 12.
Definition EV_KEY : Z := 1.
Definition KEY_SPACE : Z := 57.
Definition KEY_SCREENLOCK : Z := 152.
Definition KEY_F13 : Z := 183.
Definition KEY_F14 : Z := 184.
Definition KEY_F15 : Z := 185.
Definition KEY_F16 : Z := 186.
Definition KEY_F17 : Z := 187.
Definition KEY_F18 : Z := 188.
Definition HID_GD_KEYBOARD : Z := 0x00010006.
Inductive connect_mask := HID_CONNECT_HIDRAW | HID_CONNECT_DEFAULT.
Definition HID_MAX_USAGES : Z := 12288.
End Linux.
Import Linux.

(** ** Constants of the driver *)

Definition COUGAR_VENDOR_USAGE : Z := 0xff00ff00.
Definition COUGAR_FIELD_CODE : nat := 1.
Definition COUGAR_FIELD_ACTION : nat := 2.
Definition COUGAR_KEY_G1 : Z := 0x83.
Definition COUGAR_KEY_G2 : Z := 0x84.
Definition COUGAR_KEY_G3 : Z := 0x85.
Definition COUGAR_KEY_G4 : Z := 0x86.
Definition COUGAR_KEY_G5 : Z := 0x87.
Definition COUGAR_KEY_G6 : Z := 0x78.
Definition COUGAR_KEY_LOCK : Z := 0x6e.

(** ** C strings

    A [string] stands for the bytes of a [char] array; the end of the
    [string], or a zero byte in it, is the terminator. *)
Module CStr.

Definition NUL : ascii := "000"%char.

Definition uchar (c : ascii) : Z := Z.of_N (N_of_ascii c).

Definition first (s : string) : ascii :=
  match s with EmptyString => NUL | String c _ => c end.

Definition rest (s : string) : string :=
  match s with EmptyString => EmptyString | String _ r => r end.

(** The loop of [strrchr] in lib/string.c, on offsets from the start of
    the array: every byte up to and including the terminator is compared
    with [c], and the last match is kept. *)
Fixpoint strrchr_from (s : string) (c : ascii) (i : Z) (last : option Z)
  : option Z :=
  match s with
  | EmptyString => if Ascii.eqb NUL c then Some i else last
  | String x r =>
      let last' := if Ascii.eqb x c then Some i else last in
      if Ascii.eqb x NUL then last' else strrchr_from r c (i + 1) last'
  end.

(** [strrchr(s, c)] for the array at address [base]: the address of the
    last [c], or 0 (NULL) when there is none. *)
Definition strrchr (base : Z) (s : string) (c : ascii) : Z :=
  match strrchr_from s c 0 None with
  | Some off => base + off
  | None => 0
  end.

(** [strncmp(cs, ct, count)] as in the kernel's lib/string.c. *)
Fixpoint strncmp (cs ct : string) (count : Z) : Z :=
  if count <=? 0 then 0
  else
    match cs with
    | EmptyString => if Ascii.eqb NUL (first ct) then 0 else -1
    | String c1 r1 =>
        let c2 := first ct in
        if negb (Ascii.eqb c1 c2) then
          (if uchar c1 <? uchar c2 then -1 else 1)
        else if Ascii.eqb c1 NUL then 0
        else strncmp r1 (rest ct) (count - 1)
    end.

End CStr.

(** ** The transport layer's objects *)

(** An opaque [struct input_dev *]. *)
Definition input_dev := positive.

Record hid_input := {
  registered : bool;
  hi_input : option input_dev;      (* hidinput->input, [None] is NULL *)
}.

(** What the driver reads of a [struct hid_device]: a number standing for
    the object itself, the [phys] path and the address of that array (the
    driver subtracts it from a pointer that may be NULL), the usage of the
    first collection, and the inputs that starting the hardware leaves. *)
Record hid_device := {
  hid : nat;
  phys : string;
  phys_addr : Z;
  collection_usage : Z;
  inputs : list hid_input;
}.

(** ** Descriptor fixup *)

Inductive event :=
  | InputEvent (i : input_dev) (type code value : Z)
  | InputSync (i : input_dev)
  | HidInfo (msg : string)
  | HidWarn (msg : string)
  | HidErr (msg : string)
  | HwStart (h : nat) (mask : connect_mask)
  | HwStop (h : nat)
  | HwOpen (h : nat)
  | HwClose (h : nat).

Section Fixup.

(** The bound [HID_MAX_USAGES] of the kernel the driver is built for. *)
Variable max_usages : Z.

(** [rdesc[115] | rdesc[116] << 8] *)
Definition usage_count (lo hi : Z) : Z := Z.lor lo (Z.shiftl hi 8).

(** [cougar_report_fixup]: the descriptor after the call and what was
    logged.  The conjunction is evaluated left to right and stops at the
    first false operand, as [&&] does. *)
Definition cougar_report_fixup (rdesc : list Z) : res (list Z * list event) :=
  b2 ← index rdesc 2;
  if negb (b2 =? 0x09) then Ok (rdesc, [])
  else
    b3 ← index rdesc 3;
    if negb (b3 =? 0x02) then Ok (rdesc, [])
    else
      lo ← index rdesc 115;
      hi ← index rdesc 116;
      if usage_count lo hi >=? max_usages then
        Ok (<[116%nat := to_u8 (Z.shiftr (max_usages - 1) 8)]>
                (<[115%nat := to_u8 (Z.land (max_usages - 1) 0xff)]> rdesc),
              [HidInfo "usage count exceeds max: fixing up report descriptor"])
      else Ok (rdesc, []).

End Fixup.

(** ** Device paths *)

(** [compare_device_paths]: [n1] and [n2] are pointer differences stored in
    an [int]; when [strrchr] finds no separator they are the difference of
    NULL and the array's address. *)
Definition compare_device_paths (hdev_a hdev_b : hid_device) (separator : ascii)
  : bool :=
  let n1 := to_int (CStr.strrchr (phys_addr hdev_a) (phys hdev_a) separator
                    - phys_addr hdev_a) in
  let n2 := to_int (CStr.strrchr (phys_addr hdev_b) (phys hdev_b) separator
                    - phys_addr hdev_b) in
  if negb (n1 =? n2) || (n1 <=? 0) || (n2 <=? 0) then false
  else CStr.strncmp (phys hdev_a) (phys hdev_b) n1 =? 0.

(** ** The driver's objects *)

(** Addresses of objects obtained from [kzalloc] and [devm_kzalloc]. *)
Definition ptr := positive.

(** [dev] holds what the driver reads through [shared->dev]; how long that
    [hid_device] lives is not modelled. *)
Record cougar_shared := {
  kref : Z;                      (* the count of [struct kref] *)
  enabled : bool;
  dev : hid_device;
  input : option input_dev;
}.

Record cougar := {
  special_intf : bool;
  shared : option ptr;           (* [None] is NULL *)
}.

(** What the device-managed resources of a [struct device] hold, oldest
    first: memory from [devm_kzalloc] and actions from [devm_add_action]. *)
Inductive devres_node :=
  | DevresMem (c : ptr)
  | DevresRemoveSharedData (c : ptr).   (* cougar_remove_shared_data(c) *)

(** The state the driver runs in.  [trace] is everything the driver has sent
    to the input layer, the log and the hardware, oldest first. *)
Record world := {
  cougar_mapping : list (Z * Z);
  cougar_g6_is_space : Z;
  cougar_udev_list : list ptr;
  shared_mem : gmap ptr cougar_shared;
  cougar_mem : gmap ptr cougar;
  drvdata : gmap nat ptr;              (* absent is NULL *)
  devres : gmap nat (list devres_node);
  trace : list event;
}.

Definition set_mapping (m : list (Z * Z)) (w : world) : world :=
  {| cougar_mapping := m; cougar_g6_is_space := cougar_g6_is_space w;
     cougar_udev_list := cougar_udev_list w; shared_mem := shared_mem w;
     cougar_mem := cougar_mem w; drvdata := drvdata w; devres := devres w;
     trace := trace w |}.

Definition set_udev_list (l : list ptr) (w : world) : world :=
  {| cougar_mapping := cougar_mapping w;
     cougar_g6_is_space := cougar_g6_is_space w;
     cougar_udev_list := l; shared_mem := shared_mem w;
     cougar_mem := cougar_mem w; drvdata := drvdata w; devres := devres w;
     trace := trace w |}.

Definition set_shared_mem (m : gmap ptr cougar_shared) (w : world) : world :=
  {| cougar_mapping := cougar_mapping w;
     cougar_g6_is_space := cougar_g6_is_space w;
     cougar_udev_list := cougar_udev_list w; shared_mem := m;
     cougar_mem := cougar_mem w; drvdata := drvdata w; devres := devres w;
     trace := trace w |}.

Definition set_cougar_mem (m : gmap ptr cougar) (w : world) : world :=
  {| cougar_mapping := cougar_mapping w;
     cougar_g6_is_space := cougar_g6_is_space w;
     cougar_udev_list := cougar_udev_list w; shared_mem := shared_mem w;
     cougar_mem := m; drvdata := drvdata w; devres := devres w;
     trace := trace w |}.

Definition set_drvdata (m : gmap nat ptr) (w : world) : world :=
  {| cougar_mapping := cougar_mapping w;
     cougar_g6_is_space := cougar_g6_is_space w;
     cougar_udev_list := cougar_udev_list w; shared_mem := shared_mem w;
     cougar_mem := cougar_mem w; drvdata := m; devres := devres w;
     trace := trace w |}.

Definition set_devres (m : gmap nat (list devres_node)) (w : world) : world :=
  {| cougar_mapping := cougar_mapping w;
     cougar_g6_is_space := cougar_g6_is_space w;
     cougar_udev_list := cougar_udev_list w; shared_mem := shared_mem w;
     cougar_mem := cougar_mem w; drvdata := drvdata w; devres := m;
     trace := trace w |}.

Definition emit (e : list event) (w : world) : world :=
  {| cougar_mapping := cougar_mapping w;
     cougar_g6_is_space := cougar_g6_is_space w;
     cougar_udev_list := cougar_udev_list w; shared_mem := shared_mem w;
     cougar_mem := cougar_mem w; drvdata := drvdata w; devres := devres w;
     trace := trace w ++ e |}.

(** Stores into live objects. *)
Definition put_shared (p : ptr) (s : cougar_shared) (w : world) : world :=
  set_shared_mem (<[p := s]> (shared_mem w)) w.

Definition put_cougar (c : ptr) (g : cougar) (w : world) : world :=
  set_cougar_mem (<[c := g]> (cougar_mem w)) w.

Definition with_kref (k : Z) (s : cougar_shared) : cougar_shared :=
  {| kref := k; enabled := enabled s; dev := dev s; input := input s |}.

Definition with_enabled (b : bool) (s : cougar_shared) : cougar_shared :=
  {| kref := kref s; enabled := b; dev := dev s; input := input s |}.

Definition with_input (i : option input_dev) (s : cougar_shared) : cougar_shared :=
  {| kref := kref s; enabled := enabled s; dev := dev s; input := i |}.

Definition with_shared (p : option ptr) (g : cougar) : cougar :=
  {| special_intf := special_intf g; shared := p |}.

Definition with_special_intf (b : bool) (g : cougar) : cougar :=
  {| special_intf := b; shared := shared g |}.

(** The table as the source initialises it, with its terminating row. *)
Definition cougar_mapping_init : list (Z * Z) :=
  [ (COUGAR_KEY_G6, KEY_SPACE);
    (COUGAR_KEY_G1, KEY_F13);
    (COUGAR_KEY_G2, KEY_F14);
    (COUGAR_KEY_G3, KEY_F15);
    (COUGAR_KEY_G4, KEY_F16);
    (COUGAR_KEY_G5, KEY_F17);
    (COUGAR_KEY_LOCK, KEY_SCREENLOCK);
    (0, 0) ].

(** The world right after the module is loaded with parameter
    [g6_is_space]: nothing is allocated, the list is empty. *)
Definition module_loaded (g6_is_space : Z) : world :=
  {| cougar_mapping := cougar_mapping_init;
     cougar_g6_is_space := g6_is_space;
     cougar_udev_list := []; shared_mem := ∅; cougar_mem := ∅;
     drvdata := ∅; devres := ∅; trace := [] |}.

(** ** What the kernel answers

    The results of the calls the driver makes into the kernel during one
    probe: whether the allocations succeed and the value each call that can
    fail returns (0 is success). *)
Record outcomes := {
  devm_kzalloc_ok : bool;
  hid_parse_ret : Z;
  hid_hw_start_ret : Z;
  kzalloc_ok : bool;
  devm_add_action_ret : Z;
  hid_hw_open_ret : Z;
}.

Definition all_succeed : outcomes :=
  {| devm_kzalloc_ok := true; hid_parse_ret := 0; hid_hw_start_ret := 0;
     kzalloc_ok := true; devm_add_action_ret := 0; hid_hw_open_ret := 0 |}.

(** Devres nodes are kept newest first, the order they are released in. *)
Definition add_devres (h : nat) (n : devres_node) (w : world) : world :=
  set_devres (<[h := n :: default [] (devres w !! h)]> (devres w)) w.

(** ** The key map *)

(** The loop of [cougar_fix_g6_mapping] over the rows from [i] on: the rows
    with G6 remapped, or [None] when the terminating row comes first. *)
Fixpoint fix_g6_rows (g6_is_space : Z) (rows : list (Z * Z))
  : res (option (list (Z * Z))) :=
  match rows with
  | [] => Fault OutOfBounds
  | (k, v) :: r =>
      if k =? 0 then Ok None
      else if k =? COUGAR_KEY_G6 then
        Ok (Some ((k, to_u8 (if g6_is_space =? 0 then KEY_F18 else KEY_SPACE))
                      :: r))
      else
        o ← fix_g6_rows g6_is_space r;
        Ok (option_map (cons (k, v)) o)
  end.

Definition cougar_fix_g6_mapping (w : world) : res world :=
  o ← fix_g6_rows (cougar_g6_is_space w) (cougar_mapping w);
  match o with
  | Some rows =>
      Ok (emit [HidInfo (if cougar_g6_is_space w =? 0
                           then "G6 mapped to F18" else "G6 mapped to space")]
                 (set_mapping rows w))
  | None => Ok (emit [HidWarn "no mapping defined for G6/spacebar"] w)
  end.

(** The loop of [cougar_raw_event] over the rows: the key of the first row
    whose code is [code], or [None] when the terminating row comes first. *)
Fixpoint lookup_mapping (rows : list (Z * Z)) (code : Z) : res (option Z) :=
  match rows with
  | [] => Fault OutOfBounds
  | (k, v) :: r =>
      if k =? 0 then Ok None
      else if code =? k then Ok (Some v)
      else lookup_mapping r code
  end.

(** ** Reference counts

    [struct kref] as its interface documents it: [kref_init] sets the count
    to 1, [kref_get] adds one, [kref_put] takes one off and calls [release]
    when the count reaches 0.  The count is not bounded here; the kernel's
    saturates at a value no number of interfaces comes near. *)
Definition kref_get (p : ptr) (w : world) : res world :=
  s ← deref (shared_mem w !! p);
  Ok (put_shared p (with_kref (kref s + 1) s) w).

Definition kref_put (p : ptr) (release : ptr → world → res world) (w : world)
  : res world :=
  s ← deref (shared_mem w !! p);
  let w' := put_shared p (with_kref (kref s - 1) s) w in
  if kref s - 1 =? 0 then release p w' else Ok w'.

(** ** The shared objects *)

Definition separator : ascii := "/"%char.

(** The scan of [cougar_get_shared_data] over the list. *)
Fixpoint find_shared (hdev : hid_device) (mem : gmap ptr cougar_shared)
    (l : list ptr) : res (option ptr) :=
  match l with
  | [] => Ok None
  | p :: r =>
      s ← deref (mem !! p);
      if compare_device_paths hdev (dev s) separator then Ok (Some p)
      else find_shared hdev mem r
  end.

Definition cougar_get_shared_data (hdev : hid_device) (w : world)
  : res (option ptr * world) :=
  found ← find_shared hdev (shared_mem w) (cougar_udev_list w);
  match found with
  | Some p => w' ← kref_get p w; Ok (Some p, w')
  | None => Ok (None, w)
  end.

Definition list_del (p : ptr) (l : list ptr) : list ptr :=
  filter (λ q, q ≠ p) l.

Definition cougar_release_shared_data (p : ptr) (w : world) : res world :=
  _ ← deref (shared_mem w !! p);
  Ok (set_shared_mem (delete p (shared_mem w))
          (set_udev_list (list_del p (cougar_udev_list w)) w)).

Definition cougar_remove_shared_data (c : ptr) (w : world) : res world :=
  g ← deref (cougar_mem w !! c);
  match shared g with
  | Some p =>
      w' ← kref_put p cougar_release_shared_data w;
      Ok (put_cougar c (with_shared None g) w')
  | None => Ok w
  end.

Definition cougar_bind_shared_data (o : outcomes) (hdev : hid_device)
    (c : ptr) (w : world) : res (Z * world) :=
  '(found, w) ← cougar_get_shared_data hdev w;
  let fresh_shared :=
    match found with
    | Some p => Some (p, w)
    | None =>
        if kzalloc_ok o then
          let p := fresh (dom (shared_mem w)) in
          let s := {| kref := 1; enabled := false; dev := hdev;
                      input := None |} in
          Some (p, set_udev_list (cougar_udev_list w ++ [p]) (put_shared p s w))
        else None
    end in
  match fresh_shared with
  | None => Ok (- ENOMEM, w)
  | Some (p, w) =>
      g ← deref (cougar_mem w !! c);
      let w := put_cougar c (with_shared (Some p) g) w in
      if devm_add_action_ret o =? 0 then
        Ok (0, add_devres (hid hdev) (DevresRemoveSharedData c) w)
      else
        w ← cougar_remove_shared_data c w;
        Ok (devm_add_action_ret o, w)
  end.

(** ** Probe, raw events, remove *)

(** The loop of [cougar_probe] over [hdev->inputs]: the first input that is
    registered and not NULL. *)
Fixpoint first_registered (l : list hid_input) : option input_dev :=
  match l with
  | [] => None
  | h :: r =>
      match registered h, hi_input h with
      | true, Some i => Some i
      | _, _ => first_registered r
      end
  end.

Definition cougar_probe (o : outcomes) (hdev : hid_device) (w : world)
  : res (Z * world) :=
  if negb (devm_kzalloc_ok o) then Ok (- ENOMEM, w)
  else
    let c := fresh (dom (cougar_mem w)) in
    let w := add_devres (hid hdev) (DevresMem c)
               (put_cougar c {| special_intf := false; shared := None |} w) in
    let w := set_drvdata (<[hid hdev := c]> (drvdata w)) w in
    (* the labels [fail] and [fail_stop_and_cleanup] *)
    let fail (error : Z) (w : world) : res (Z * world) :=
      Ok (error, set_drvdata (delete (hid hdev) (drvdata w)) w) in
    let fail_stop_and_cleanup (error : Z) (w : world) :=
      fail error (emit [HwStop (hid hdev)] w) in
    if negb (hid_parse_ret o =? 0) then
      fail (hid_parse_ret o) (emit [HidErr "parse failed"] w)
    else
      let vendor := collection_usage hdev =? COUGAR_VENDOR_USAGE in
      g ← deref (cougar_mem w !! c);
      let w := if vendor then put_cougar c (with_special_intf true g) w
               else w in
      let connect_mask :=
        if vendor then HID_CONNECT_HIDRAW else HID_CONNECT_DEFAULT in
      if negb (hid_hw_start_ret o =? 0) then
        fail (hid_hw_start_ret o) (emit [HidErr "hw start failed"] w)
      else
        let w := emit [HwStart (hid hdev) connect_mask] w in
        '(error, w) ← cougar_bind_shared_data o hdev c w;
        if negb (error =? 0) then fail_stop_and_cleanup error w
        else if collection_usage hdev =? HID_GD_KEYBOARD then
          w ← cougar_fix_g6_mapping w;
          match first_registered (inputs hdev) with
          | Some i =>
              g ← deref (cougar_mem w !! c);
              p ← deref (shared g);
              s ← deref (shared_mem w !! p);
              let w := put_shared p (with_input (Some i) s) w in
              s ← deref (shared_mem w !! p);
              Ok (0, put_shared p (with_enabled true s) w)
          | None => Ok (0, w)
          end
        else if vendor then
          if negb (hid_hw_open_ret o =? 0) then
            fail_stop_and_cleanup (hid_hw_open_ret o) w
          else Ok (0, emit [HwOpen (hid hdev)] w)
        else Ok (0, w).

(** [cougar_raw_event]; [data] is the buffer of [size] bytes. *)
Definition cougar_raw_event (hdev : hid_device) (data : list Z) (w : world)
  : res (Z * world) :=
  c ← deref (drvdata w !! hid hdev);
  g ← deref (cougar_mem w !! c);
  if negb (special_intf g) then Ok (0, w)
  else
    match shared g with
    | None => Ok (0, w)
    | Some p =>
        s ← deref (shared_mem w !! p);
        match input s with
        | None => Ok (0, w)
        | Some i =>
            if negb (enabled s) then Ok (0, w)
            else
              code ← index data COUGAR_FIELD_CODE;
              action ← index data COUGAR_FIELD_ACTION;
              key ← lookup_mapping (cougar_mapping w) code;
              match key with
              | Some k =>
                  Ok (0, emit [InputEvent i EV_KEY k action; InputSync i] w)
              | None =>
                  Ok (0, emit [HidWarn "unmapped special key code: ignoring"] w)
              end
        end
    end.

Definition cougar_remove (hdev : hid_device) (w : world) : res world :=
  w ← match drvdata w !! hid hdev with
      | Some c =>
          g ← deref (cougar_mem w !! c);
          w ← match shared g with
              | Some p =>
                  s ← deref (shared_mem w !! p);
                  Ok (put_shared p (with_enabled false s) w)
              | None => Ok w
              end;
          Ok (if special_intf g then emit [HwClose (hid hdev)] w else w)
      | None => Ok w
      end;
  Ok (emit [HwStop (hid hdev)] w).

(** ** The driver core

    The part of drivers/base/dd.c the driver relies on: the resources a
    device manages are released, newest first, after [remove] has run and
    when [probe] has failed, and the driver data is cleared. *)
Fixpoint release_nodes (nodes : list devres_node) (w : world) : res world :=
  match nodes with
  | [] => Ok w
  | DevresMem c :: r =>
      release_nodes r (set_cougar_mem (delete c (cougar_mem w)) w)
  | DevresRemoveSharedData c :: r =>
      w ← cougar_remove_shared_data c w;
      release_nodes r w
  end.

Definition devres_release_all (h : nat) (w : world) : res world :=
  w ← release_nodes (default [] (devres w !! h)) w;
  Ok (set_drvdata (delete h (drvdata w)) (set_devres (delete h (devres w)) w)).

Definition really_probe (o : outcomes) (hdev : hid_device) (w : world)
  : res (Z * world) :=
  '(error, w) ← cougar_probe o hdev w;
  if error =? 0 then Ok (0, w)
  else
    w ← devres_release_all (hid hdev) w;
    Ok (error, w).

Definition device_release_driver (hdev : hid_device) (w : world) : res world :=
  w ← cougar_remove hdev w;
  devres_release_all (hid hdev) w.

(** ** Vocabulary of the statements *)

(** The two-byte little-endian usage count of a descriptor. *)
Definition rdesc_usage_count (rdesc : list Z) : res Z :=
  lo ← index rdesc 115;
  hi ← index rdesc 116;
  Ok (usage_count lo hi).

(** The descriptor with the two bytes the fixup stores. *)
Definition clamped (max_usages : Z) (rdesc : list Z) : list Z :=
  <[116%nat := to_u8 (Z.shiftr (max_usages - 1) 8)]>
    (<[115%nat := to_u8 (Z.land (max_usages - 1) 0xff)]> rdesc).

(** The gate of [cougar_raw_event] is open for [hdev]: its driver data is a
    vendor-interface [cougar] whose shared object has an input and is
    enabled. *)
Definition gate_open (hdev : hid_device) (w : world) (i : input_dev) : Prop :=
  ∃ c g p s,
    drvdata w !! hid hdev = Some c ∧ cougar_mem w !! c = Some g ∧
    special_intf g = true ∧ shared g = Some p ∧
    shared_mem w !! p = Some s ∧ input s = Some i ∧ enabled s = true.

(** The gate is closed for a reason the driver tests for. *)
Definition gate_closed (hdev : hid_device) (w : world) : Prop :=
  ∃ c g,
    drvdata w !! hid hdev = Some c ∧ cougar_mem w !! c = Some g ∧
    (special_intf g = false ∨ shared g = None ∨
     ∃ p s, shared g = Some p ∧ shared_mem w !! p = Some s ∧
            (input s = None ∨ enabled s = false)).

(** The rows of a table end with a terminating row. *)
Definition terminated (rows : list (Z * Z)) : bool :=
  existsb (λ r, fst r =? 0) rows.

(** The key G6 stands for under a value of [g6_is_space]. *)
Definition g6_target (g6_is_space : Z) : Z :=
  if g6_is_space =? 0 then KEY_F18 else KEY_SPACE.

(** [has_char c s]: the byte [c] occurs in [s]. *)
Fixpoint has_char (c : ascii) (s : string) : bool :=
  match s with
  | EmptyString => false
  | String x r => Ascii.eqb x c || has_char c r
  end.

(** [p] is the part of the path [s] before its last separator. *)
Definition path_prefix (s p : string) : Prop :=
  ∃ t, s = String.append p (String separator t) ∧
       has_char separator t = false ∧
       has_char CStr.NUL s = false.

(** The path [s] has no separator at all. *)
Definition no_separator (s : string) : Prop :=
  has_char separator s = false ∧ has_char CStr.NUL s = false.

(** [phys] is a [char[64]] with its terminator. *)
Definition phys_fits (hdev : hid_device) : Prop :=
  (String.length (phys hdev) < 64)%nat.

(** Every object on the list is live and counted at least once. *)
Definition registry_ok (w : world) : Prop :=
  ∀ p, p ∈ cougar_udev_list w →
       ∃ s, shared_mem w !! p = Some s ∧ 1 ≤ kref s.

(** ** Interfaces acquiring and releasing in any order *)

(** An interface of a device: its [hid_device] and the [cougar] allocated
    for it. *)
Record interface := {
  if_dev : hid_device;
  if_cougar : ptr;
}.

Inductive op :=
  | Acquire (i : nat)     (* interface [i] binds the shared data *)
  | Release (i : nat).    (* interface [i] removes its shared data *)

Definition acquire (itf : interface) (w : world) : res world :=
  '(_, w) ← cougar_bind_shared_data all_succeed (if_dev itf) (if_cougar itf) w;
  Ok w.

Definition release (itf : interface) (w : world) : res world :=
  cougar_remove_shared_data (if_cougar itf) w.

Fixpoint run (ifs : list interface) (ops : list op) (w : world) : res world :=
  match ops with
  | [] => Ok w
  | Acquire i :: r =>
      itf ← deref (ifs !! i); w ← acquire itf w; run ifs r w
  | Release i :: r =>
      itf ← deref (ifs !! i); w ← release itf w; run ifs r w
  end.

(** [schedule n held ops]: [ops] names interfaces below [n] only, an
    interface acquires only while it holds nothing and releases only what
    it holds; the result is the set of interfaces holding at the end. *)
Fixpoint schedule (n : nat) (held : gset nat) (ops : list op)
  : option (gset nat) :=
  match ops with
  | [] => Some held
  | Acquire i :: r =>
      if decide ((i < n)%nat ∧ i ∉ held) then schedule n ({[i]} ∪ held) r
      else None
  | Release i :: r =>
      if decide ((i < n)%nat ∧ i ∈ held) then schedule n (held ∖ {[i]}) r
      else None
  end.




(** The state of the interfaces [ifs] of one device when those in [held]
    hold the shared data, from a registry [l0], [m0] with no object for the
    device: each [cougar] points to the object or to nothing, and the object
    is on the list, counted once per holder, exactly when someone holds. *)
Definition holding (ifs : list interface) (l0 : list ptr)
    (m0 : gmap ptr cougar_shared) (held : gset nat) (w : world) : Prop :=
  let p := fresh (dom m0) in
  (∀ i itf, ifs !! i = Some itf →
     ∃ g, cougar_mem w !! if_cougar itf = Some g ∧
          shared g = if decide (i ∈ held) then Some p else None) ∧
  (if decide (size held = 0%nat) then
     cougar_udev_list w = l0 ∧ shared_mem w = m0
   else
     ∃ s, cougar_udev_list w = l0 ++ [p] ∧
          shared_mem w = <[p := s]> m0 ∧
          kref s = Z.of_nat (size held) ∧
          ∃ j itf, ifs !! j = Some itf ∧ dev s = if_dev itf).

(** ** What can happen after the module is loaded *)

(** One call into the driver: a probe with whatever the kernel answers, a
    release of the driver, or a raw event. *)
Inductive step : world → world → Prop :=
  | step_probe o hdev w error w' :
      really_probe o hdev w = Ok (error, w') → step w w'
  | step_release hdev w w' :
      device_release_driver hdev w = Ok w' → step w w'
  | step_raw_event hdev data w ret w' :
      cougar_raw_event hdev data w = Ok (ret, w') → step w w'.

Definition reachable (g6_is_space : Z) (w : world) : Prop :=
  rtc step (module_loaded g6_is_space) w.

(** The table is the initial one with G6 set as [cougar_g6_is_space] asks. *)
Definition configured (w : world) : Prop :=
  fix_g6_rows (cougar_g6_is_space w) cougar_mapping_init
  = Ok (Some (cougar_mapping w)).

Definition some_enabled (w : world) : Prop :=
  ∃ p s, shared_mem w !! p = Some s ∧ enabled s = true.

(** From [w] to [w'] the parameter and the table are untouched and no shared
    object has become enabled. *)
Definition quiet (w w' : world) : Prop :=
  cougar_g6_is_space w' = cougar_g6_is_space w ∧
  cougar_mapping w' = cougar_mapping w ∧
  ∀ p s', shared_mem w' !! p = Some s' → enabled s' = true →
          ∃ s, shared_mem w !! p = Some s ∧ enabled s = true.

(** What holds of the table in every reachable state. *)
Definition mapping_inv (g6_is_space : Z) (w : world) : Prop :=
  cougar_g6_is_space w = g6_is_space ∧
  (configured w ∨
   (cougar_mapping w = cougar_mapping_init ∧ ¬ some_enabled w)).

(** Interfaces of one device ([same_device]), each with a live [cougar] that
    holds nothing ([unbound]), and a registry none of whose objects matches
    any of them ([foreign]). *)
Definition same_device (ifs : list interface) (id : string) : Prop :=
  id ≠ EmptyString ∧
  ∀ i itf, ifs !! i = Some itf →
    phys_fits (if_dev itf) ∧ path_prefix (phys (if_dev itf)) id.

Definition unbound (ifs : list interface) (w : world) : Prop :=
  NoDup (if_cougar <$> ifs) ∧
  ∀ i itf, ifs !! i = Some itf →
    ∃ g, cougar_mem w !! if_cougar itf = Some g ∧ shared g = None.

Definition foreign (ifs : list interface) (w : world) : Prop :=
  ∀ q, q ∈ cougar_udev_list w →
    ∃ s, shared_mem w !! q = Some s ∧
         ∀ i itf, ifs !! i = Some itf →
           compare_device_paths (if_dev itf) (dev s) separator = false.

(** ** Concrete devices and states *)

Module Demo.

(** The keyboard and the vendor interface of one keyboard. *)
Definition keyboard : hid_device :=
  {| hid := 1; phys := "usb-0000:00:14.0-1/input0";
     phys_addr := 0xffff888012345678;
     collection_usage := HID_GD_KEYBOARD;
     inputs := [ {| registered := true; hi_input := Some 7%positive |} ] |}.

Definition vendor : hid_device :=
  {| hid := 2; phys := "usb-0000:00:14.0-1/input2";
     phys_addr := 0xffff888012347678;
     collection_usage := COUGAR_VENDOR_USAGE;
     inputs := [] |}.

(** Two devices whose paths are the same separator-free string, in arrays
    4 GiB apart. *)
Definition plain_a : hid_device :=
  {| hid := 3; phys := "cougar"; phys_addr := 0xffff8880c0001240;
     collection_usage := COUGAR_VENDOR_USAGE; inputs := [] |}.

Definition plain_b : hid_device :=
  {| hid := 4; phys := "cougar"; phys_addr := 0xffff8881c0001240;
     collection_usage := COUGAR_VENDOR_USAGE; inputs := [] |}.

Definition after (r : res (Z * world)) (otherwise : world) : world :=
  match r with Ok (_, w) => w | Fault _ => otherwise end.

(** The vendor interface is probed right after the module is loaded, and
    then the keyboard. *)
Definition vendor_probed (g6_is_space : Z) : world :=
  let w := module_loaded g6_is_space in
  after (really_probe all_succeed vendor w) w.

Definition both_probed (g6_is_space : Z) : world :=
  let w := vendor_probed g6_is_space in
  after (really_probe all_succeed keyboard w) w.

Definition keyboard_probed (g6_is_space : Z) : world :=
  let w := module_loaded g6_is_space in
  after (really_probe all_succeed keyboard w) w.

(** Everything succeeds but opening the vendor interface (-EIO). *)
Definition open_fails : outcomes :=
  {| devm_kzalloc_ok := true; hid_parse_ret := 0; hid_hw_start_ret := 0;
     kzalloc_ok := true; devm_add_action_ret := 0; hid_hw_open_ret := -5 |}.

(** The two interfaces with a [cougar] each, holding nothing. *)
Definition ifs : list interface :=
  [ {| if_dev := keyboard; if_cougar := 1%positive |};
    {| if_dev := vendor; if_cougar := 2%positive |} ].

Definition allocated : world :=
  put_cougar 2%positive {| special_intf := true; shared := None |}
    (put_cougar 1%positive {| special_intf := false; shared := None |}
       (module_loaded 1)).

(** Both acquire, then the keyboard releases while the vendor interface
    still holds. *)
Definition ops : list op := [Acquire 0; Acquire 1; Release 0].

(** A descriptor of 117 bytes with the usage page the fixup looks for and
    a usage count of 0xffff. *)
Definition rdesc : list Z :=
  <[116%nat := 0xff]> (<[115%nat := 0xff]> (<[3%nat := 0x02]>
    (<[2%nat := 0x09]> (replicate 117 0)))).

End Demo.

(** ** The driver under the discipline of the driver core *)

(** The driver core probes a device only while no driver is bound to it. *)
Inductive core_step : world → world → Prop :=
  | core_probe o hdev w error w' :
      drvdata w !! hid hdev = None → devres w !! hid hdev = None →
      really_probe o hdev w = Ok (error, w') → core_step w w'
  | core_release hdev w w' :
      device_release_driver hdev w = Ok w' → core_step w w'
  | core_raw_event hdev data w ret w' :
      cougar_raw_event hdev data w = Ok (ret, w') → core_step w w'.

Definition core_reachable (g6_is_space : Z) (w : world) : Prop :=
  rtc core_step (module_loaded g6_is_space) w.

(** The number of [cougar] structures whose [shared] is [p]. *)
Definition holders (p : ptr) (m : gmap ptr cougar) : nat :=
  size (filter (λ cg : ptr * cougar, shared cg.2 = Some p) m).

(** The nodes a bound device manages: its [cougar] and the action that
    removes the shared data. *)
Definition bound_nodes (c : ptr) : list devres_node :=
  [DevresRemoveSharedData c; DevresMem c].

(** The shape of the driver's memory between two calls: the list has the
    live shared objects, once each; the count of a shared object is the
    number of [cougar] structures pointing to it, and is not 0; every
    [cougar] is the driver data of exactly one bound device and points to a
    live shared object. *)
Record sound (w : world) : Prop := {
  sound_nodup : NoDup (cougar_udev_list w);
  sound_listed : ∀ p, p ∈ cougar_udev_list w ↔ is_Some (shared_mem w !! p);
  sound_count : ∀ p s, shared_mem w !! p = Some s →
    kref s = Z.of_nat (holders p (cougar_mem w)) ∧ 1 ≤ kref s;
  sound_cougar : ∀ c g, cougar_mem w !! c = Some g →
    (∃ h, drvdata w !! h = Some c) ∧
    ∃ p, shared g = Some p ∧ is_Some (shared_mem w !! p);
  sound_drvdata : ∀ h c, drvdata w !! h = Some c →
    is_Some (cougar_mem w !! c) ∧ devres w !! h = Some (bound_nodes c);
  sound_devres : ∀ h nodes, devres w !! h = Some nodes →
    ∃ c, nodes = bound_nodes c ∧ drvdata w !! h = Some c;
  sound_owner : ∀ h1 h2 c, drvdata w !! h1 = Some c → drvdata w !! h2 = Some c →
    h1 = h2;
}.

(** The input a probe of [hdev] installs: that of the first registered
    input of a keyboard interface. *)
Definition keyboard_input (hdev : hid_device) : option input_dev :=
  if collection_usage hdev =? HID_GD_KEYBOARD
  then first_registered (inputs hdev) else None.

(** What a probe that succeeds sends out: the hardware is started, with
    hidraw only for the vendor interface; a keyboard interface logs what
    G6 is mapped to, the vendor interface is opened. *)
Definition probe_events (hdev : hid_device) (evs : list event) : Prop :=
  ∃ log,
    evs = HwStart (hid hdev)
            (if collection_usage hdev =? COUGAR_VENDOR_USAGE
             then HID_CONNECT_HIDRAW else HID_CONNECT_DEFAULT) :: log ∧
    if collection_usage hdev =? HID_GD_KEYBOARD
    then ∃ msg, log = [HidInfo msg] ∨ log = [HidWarn msg]
    else if collection_usage hdev =? COUGAR_VENDOR_USAGE
         then log = [HwOpen (hid hdev)] else log = [].

(** What a successful probe of [hdev] has done to [w]: a new [cougar] is
    the driver data, the device manages it and the removal of the shared
    data, and the [cougar] holds one more reference to the object [p], found
    on the list or new at its end; a keyboard interface has run the loop
    that sets G6, and has enabled the object if it has a registered input. *)
Definition probed (hdev : hid_device) (w w' : world) (c p : ptr) : Prop :=
  c = fresh (dom (cougar_mem w)) ∧
  cougar_mem w' =
    <[c := {| special_intf := collection_usage hdev =? COUGAR_VENDOR_USAGE;
              shared := Some p |}]> (cougar_mem w) ∧
  drvdata w' = <[hid hdev := c]> (drvdata w) ∧
  devres w' = <[hid hdev := bound_nodes c]> (devres w) ∧
  cougar_g6_is_space w' = cougar_g6_is_space w ∧
  (if collection_usage hdev =? HID_GD_KEYBOARD then
     ∃ rows, fix_g6_rows (cougar_g6_is_space w) (cougar_mapping w) = Ok rows ∧
             cougar_mapping w' = default (cougar_mapping w) rows
   else cougar_mapping w' = cougar_mapping w) ∧
  (∃ evs, trace w' = trace w ++ evs ∧ probe_events hdev evs) ∧
  ∃ s',
    shared_mem w' = <[p := s']> (shared_mem w) ∧
    match shared_mem w !! p with
    | Some s =>
        find_shared hdev (shared_mem w) (cougar_udev_list w) = Ok (Some p) ∧
        cougar_udev_list w' = cougar_udev_list w ∧
        kref s' = kref s + 1 ∧ dev s' = dev s ∧
        match keyboard_input hdev with
        | Some i => enabled s' = true ∧ input s' = Some i
        | None => enabled s' = enabled s ∧ input s' = input s
        end
    | None =>
        find_shared hdev (shared_mem w) (cougar_udev_list w) = Ok None ∧
        p = fresh (dom (shared_mem w)) ∧
        cougar_udev_list w' = cougar_udev_list w ++ [p] ∧
        kref s' = 1 ∧ dev s' = hdev ∧
        match keyboard_input hdev with
        | Some i => enabled s' = true ∧ input s' = Some i
        | None => enabled s' = false ∧ input s' = None
        end
    end.

(** What a failing probe leaves in the trace. *)
Definition failure_events (hdev : hid_device) (evs : list event) : Prop :=
  evs = [] ∨ evs = [HidErr "parse failed"] ∨ evs = [HidErr "hw start failed"] ∨
  ∃ mask, evs = [HwStart (hid hdev) mask; HwStop (hid hdev)].

(** From [w], the vendor interface is released; then probed again. *)
Definition vendor_released_from (w : world) : world :=
  match device_release_driver Demo.vendor w with
  | Ok w' => w'
  | Fault _ => w
  end.

Definition vendor_rebound_from (w : world) : world :=
  let w1 := vendor_released_from w in
  Demo.after (really_probe all_succeed Demo.vendor w1) w1.

(** The vendor interface is probed and then released. *)
Definition vendor_released (g6_is_space : Z) : world :=
  vendor_released_from (Demo.vendor_probed g6_is_space).

(** The [cougar] of [hdev] points to the shared object [p]. *)
Definition bound_to (hdev : hid_device) (w : world) (p : ptr) : Prop :=
  ∃ c g, drvdata w !! hid hdev = Some c ∧ cougar_mem w !! c = Some g ∧
         shared g = Some p.

(** * Theorems *)

(** * Device paths *)

Lemma separator_not_NUL : Ascii.eqb separator CStr.NUL = false.
Proof. reflexivity. Qed.

Lemma strrchr_from_nil (c : ascii) (i : Z) (last : option Z) :
  CStr.strrchr_from EmptyString c i last
  = if Ascii.eqb CStr.NUL c then Some i else last.
Proof. reflexivity. Qed.

Lemma strrchr_from_cons (x c : ascii) (r : string) (i : Z) (last : option Z) :
  CStr.strrchr_from (String x r) c i last
  = if Ascii.eqb x CStr.NUL then (if Ascii.eqb x c then Some i else last)
    else CStr.strrchr_from r c (i + 1) (if Ascii.eqb x c then Some i else last).
Proof. reflexivity. Qed.

Lemma has_char_cons (c x : ascii) (r : string) :
  has_char c (String x r) = Ascii.eqb x c || has_char c r.
Proof. reflexivity. Qed.

Lemma append_cons (x : ascii) (r t : string) :
  String.append (String x r) t = String x (String.append r t).
Proof. reflexivity. Qed.

Lemma append_nil (t : string) : String.append EmptyString t = t.
Proof. reflexivity. Qed.

Lemma strrchr_from_absent (c : ascii) (t : string) (i : Z) (last : option Z) :
  Ascii.eqb c CStr.NUL = false →
  has_char c t = false → has_char CStr.NUL t = false →
  CStr.strrchr_from t c i last = last.
Proof.
  intros Hc. revert i last.
  induction t as [|x r IH]; intros i last Hno Hnul.
  - rewrite strrchr_from_nil. rewrite Ascii.eqb_sym in Hc. by rewrite Hc.
  - rewrite has_char_cons in Hno, Hnul.
    apply orb_false_elim in Hno as [Hx Hr].
    apply orb_false_elim in Hnul as [Hx0 Hr0].
    rewrite strrchr_from_cons, Hx, Hx0. by apply IH.
Qed.

Lemma strrchr_from_last (c : ascii) (p t : string) (i : Z) (last : option Z) :
  Ascii.eqb c CStr.NUL = false →
  has_char c t = false →
  has_char CStr.NUL (String.append p (String c t)) = false →
  CStr.strrchr_from (String.append p (String c t)) c i last
  = Some (i + Z.of_nat (String.length p)).
Proof.
  intros Hc Hno. revert i last.
  induction p as [|x r IH]; intros i last Hnul.
  - rewrite append_nil in *. rewrite has_char_cons in Hnul.
    apply orb_false_elim in Hnul as [_ Hnul].
    rewrite strrchr_from_cons, Ascii.eqb_refl, Hc.
    rewrite strrchr_from_absent by done. simpl. f_equal. lia.
  - rewrite append_cons in *. rewrite has_char_cons in Hnul.
    apply orb_false_elim in Hnul as [Hx0 Hnul].
    rewrite strrchr_from_cons, Hx0. rewrite IH by done.
    simpl String.length. f_equal. lia.
Qed.

Lemma strncmp_cons (c1 : ascii) (r1 ct : string) (count : Z) :
  CStr.strncmp (String c1 r1) ct count =
  if count <=? 0 then 0
  else if negb (Ascii.eqb c1 (CStr.first ct)) then
         (if CStr.uchar c1 <? CStr.uchar (CStr.first ct) then -1 else 1)
       else if Ascii.eqb c1 CStr.NUL then 0
       else CStr.strncmp r1 (CStr.rest ct) (count - 1).
Proof. reflexivity. Qed.

Lemma strncmp_0 (cs ct : string) : CStr.strncmp cs ct 0 = 0.
Proof. by destruct cs. Qed.

Lemma strncmp_common_prefix (p a b : string) :
  has_char CStr.NUL p = false →
  CStr.strncmp (String.append p a) (String.append p b)
    (Z.of_nat (String.length p)) = 0.
Proof.
  induction p as [|x r IH]; intros Hnul.
  - apply strncmp_0.
  - rewrite has_char_cons in Hnul. apply orb_false_elim in Hnul as [Hx0 Hnul].
    rewrite !append_cons, strncmp_cons. simpl String.length.
    destruct (Z.leb_spec (Z.of_nat (S (String.length r))) 0); [lia|].
    change (CStr.first (String x (String.append r b))) with x.
    change (CStr.rest (String x (String.append r b))) with (String.append r b).
    rewrite Ascii.eqb_refl, Hx0. cbn [negb].
    replace (Z.of_nat (S (String.length r)) - 1)
      with (Z.of_nat (String.length r)) by lia.
    by apply IH.
Qed.

Lemma has_char_app (c : ascii) (p t : string) :
  has_char c (String.append p t) = has_char c p || has_char c t.
Proof.
  induction p as [|x r IH]; [done|].
  by rewrite append_cons, !has_char_cons, IH, orb_assoc.
Qed.

Lemma length_app (p t : string) :
  String.length (String.append p t) = (String.length p + String.length t)%nat.
Proof. induction p; simpl; [done | by f_equal]. Qed.

Lemma to_int_small (z : Z) : 0 ≤ z < 2 ^ 31 → to_int z = z.
Proof. intros Hz. unfold to_int. rewrite Z.mod_small; lia. Qed.

(** The length [compare_device_paths] computes for a path with a
    separator is the length of its prefix. *)
Lemma prefix_length (hdev : hid_device) (p : string) :
  phys_fits hdev → path_prefix (phys hdev) p →
  to_int (CStr.strrchr (phys_addr hdev) (phys hdev) separator - phys_addr hdev)
  = Z.of_nat (String.length p).
Proof.
  intros Hfit (t & Heq & Hno & Hnul). unfold CStr.strrchr.
  rewrite Heq in Hnul |- *.
  rewrite strrchr_from_last by done.
  unfold phys_fits in Hfit. rewrite Heq, length_app in Hfit.
  replace (phys_addr hdev + (0 + Z.of_nat (String.length p)) - phys_addr hdev)
    with (Z.of_nat (String.length p)) by lia.
  apply to_int_small. lia.
Qed.

Lemma same_prefix_matches (hdev_a hdev_b : hid_device) (p : string) :
  phys_fits hdev_a → phys_fits hdev_b → p ≠ EmptyString →
  path_prefix (phys hdev_a) p → path_prefix (phys hdev_b) p →
  compare_device_paths hdev_a hdev_b separator = true.
Proof.
  intros Fa Fb Hp Ha Hb. unfold compare_device_paths.
  rewrite (prefix_length _ _ Fa Ha), (prefix_length _ _ Fb Hb).
  rewrite Z.eqb_refl. simpl negb.
  assert (0 < Z.of_nat (String.length p)) by (destruct p; [done | simpl; lia]).
  destruct (Z.leb_spec (Z.of_nat (String.length p)) 0); [lia|]. simpl.
  destruct Ha as (ta & -> & _ & Hnul), Hb as (tb & -> & _ & _).
  rewrite has_char_app in Hnul. apply orb_false_elim in Hnul as [Hnul _].
  by rewrite strncmp_common_prefix.
Qed.

(** A separator at position 0 never matches, whatever the other path. *)
Lemma separator_at_0_never_matches (hdev_a hdev_b : hid_device) :
  phys_fits hdev_a → path_prefix (phys hdev_a) EmptyString →
  compare_device_paths hdev_a hdev_b separator = false ∧
  compare_device_paths hdev_b hdev_a separator = false.
Proof.
  intros Fa Ha. unfold compare_device_paths.
  rewrite (prefix_length _ _ Fa Ha). simpl Z.of_nat.
  split.
  - destruct (negb _); done.
  - destruct (negb _); [done|]. simpl. by rewrite orb_true_r.
Qed.

(** * Indexing and the descriptor fixup *)

Lemma index_Ok {A} (l : list A) (i : nat) (a : A) :
  index l i = Ok a ↔ l !! i = Some a.
Proof. unfold index. destruct (l !! i); split; congruence. Qed.

Lemma index_lt {A} (l : list A) (i : nat) :
  (i < length l)%nat → ∃ a, index l i = Ok a ∧ l !! i = Some a.
Proof.
  intros Hi. destruct (lookup_lt_is_Some_2 l i Hi) as [a Ha].
  exists a. by rewrite index_Ok.
Qed.

Lemma index_ge {A} (l : list A) (i : nat) :
  (length l ≤ i)%nat → index l i = Fault OutOfBounds.
Proof. intros Hi. unfold index. by rewrite lookup_ge_None_2. Qed.

(** C10, as the code has it: [cougar_report_fixup] never consults the size
    of the descriptor; with indexing that can fail, it returns without
    reading out of bounds exactly when the descriptor has at least 3 bytes,
    at least 4 if byte 2 is 0x09, and at least 117 if moreover byte 3 is
    0x02.  The bytes at 3, 115 and 116 are read only behind the tests that
    precede them. *)
Theorem report_fixup_in_bounds (M : Z) (rdesc : list Z) :
  is_ok (cougar_report_fixup M rdesc) = true ↔
  (3 ≤ length rdesc)%nat ∧
  (rdesc !! 2%nat = Some 0x09 →
   (4 ≤ length rdesc)%nat ∧
   (rdesc !! 3%nat = Some 0x02 → (117 ≤ length rdesc)%nat)).
Proof.
  unfold cougar_report_fixup.
  destruct (decide (3 ≤ length rdesc)%nat) as [H3|H3]; cycle 1.
  { rewrite (index_ge rdesc 2) by lia. simpl. split; [done | lia]. }
  destruct (index_lt rdesc 2 ltac:(lia)) as (b2 & -> & E2). simpl.
  destruct (Z.eqb_spec b2 9) as [->|N2]; simpl; cycle 1.
  { split; [|done]. intros _. split; [done|]. intros ?; congruence. }
  destruct (decide (4 ≤ length rdesc)%nat) as [H4|H4]; cycle 1.
  { rewrite (index_ge rdesc 3) by lia. simpl. split; [done|].
    intros [_ H]. destruct (H E2). lia. }
  destruct (index_lt rdesc 3 ltac:(lia)) as (b3 & -> & E3). simpl.
  destruct (Z.eqb_spec b3 2) as [->|N3]; simpl; cycle 1.
  { split; [|done]. intros _. split; [done|]. intros _. split; [done|].
    intros ?; congruence. }
  destruct (decide (117 ≤ length rdesc)%nat) as [H117|H117].
  - destruct (index_lt rdesc 115 ltac:(lia)) as (lo & -> & _).
    destruct (index_lt rdesc 116 ltac:(lia)) as (hi & -> & _). simpl.
    split; [tauto|]. intros _. by destruct (_ >=? _).
  - split; [|intros [_ H]; destruct (H E2) as [_ H']; specialize (H' E3); lia].
    destruct (decide (116 ≤ length rdesc)%nat).
    + destruct (index_lt rdesc 115 ltac:(lia)) as (lo & -> & _).
      rewrite (index_ge rdesc 116) by lia. done.
    + rewrite (index_ge rdesc 115) by lia. done.
Qed.

Lemma usage_count_clamped (M : Z) :
  1 ≤ M ≤ 65536 →
  usage_count (to_u8 (Z.land (M - 1) 0xff)) (to_u8 (Z.shiftr (M - 1) 8))
  = M - 1.
Proof.
  intros HM. unfold usage_count, to_u8.
  change 255 with (Z.ones 8). rewrite Z.land_ones by lia.
  rewrite Z.shiftr_div_pow2, Z.shiftl_mul_pow2 by lia.
  change (2 ^ 8) with 256.
  rewrite Z.mod_mod by lia.
  rewrite (Z.mod_small ((M - 1) / 256)) by
    (split; [apply Z.div_pos; lia | apply Z.div_lt_upper_bound; lia]).
  rewrite <- (Z.add_0_r (Z.lor _ _)).
  assert (Z.land ((M - 1) mod 256) ((M - 1) / 256 * 256) = 0) as <-.
  { apply Z.bits_inj'. intros n Hn. rewrite Z.land_spec, Z.bits_0.
    destruct (Z.ltb_spec n 8).
    - change 256 with (2 ^ 8). rewrite Z.mul_pow2_bits_low by lia.
      apply andb_false_r.
    - change 256 with (2 ^ 8). rewrite Z.mod_pow2_bits_high by lia. done. }
  rewrite Z.add_lor_land.
  pose proof (Z.div_mod (M - 1) 256). lia.
Qed.


Lemma clamped_lookup (M : Z) (rdesc : list Z) :
  (117 ≤ length rdesc)%nat →
  clamped M rdesc !! 2%nat = rdesc !! 2%nat ∧
  clamped M rdesc !! 3%nat = rdesc !! 3%nat ∧
  clamped M rdesc !! 115%nat = Some (to_u8 (Z.land (M - 1) 0xff)) ∧
  clamped M rdesc !! 116%nat = Some (to_u8 (Z.shiftr (M - 1) 8)).
Proof.
  intros Hlen. unfold clamped. repeat split.
  - by rewrite !list_lookup_insert_ne.
  - by rewrite !list_lookup_insert_ne.
  - rewrite list_lookup_insert_ne by done.
    apply list_lookup_insert_eq. lia.
  - apply list_lookup_insert_eq. rewrite length_insert. lia.
Qed.



(** * Raw events *)

(** C5: whenever the binding is not the vendor interface, or has no shared
    object, or the shared object has no input or is not enabled,
    [cougar_raw_event] returns 0 and leaves the world, hence the trace of
    emitted events, exactly as it was, whatever the payload. *)
Theorem raw_event_gated (hdev : hid_device) (data : list Z) (w : world) :
  gate_closed hdev w → cougar_raw_event hdev data w = Ok (0, w).
Proof.
  intros (c & g & Hd & Hc & Hgate). unfold cougar_raw_event.
  rewrite Hd. simpl. rewrite Hc. simpl.
  destruct Hgate as [-> | [Hs | (p & s & Hs & Hp & Hoff)]]; [done|..].
  - destruct (special_intf g); simpl; [|done]. by rewrite Hs.
  - destruct (special_intf g); simpl; [|done]. rewrite Hs, Hp. simpl.
    destruct Hoff as [-> | Hen]; [done|].
    destruct (input s); [|done]. by rewrite Hen.
Qed.

Lemma raw_event_open (hdev : hid_device) (data : list Z) (w : world)
    (i : input_dev) :
  gate_open hdev w i →
  cougar_raw_event hdev data w =
    (code ← index data COUGAR_FIELD_CODE;
     action ← index data COUGAR_FIELD_ACTION;
     key ← lookup_mapping (cougar_mapping w) code;
     match key with
     | Some k => Ok (0, emit [InputEvent i EV_KEY k action; InputSync i] w)
     | None => Ok (0, emit [HidWarn "unmapped special key code: ignoring"] w)
     end).
Proof.
  intros (c & g & p & s & Hd & Hc & Hsp & Hs & Hp & Hi & He).
  unfold cougar_raw_event. rewrite Hd. simpl. rewrite Hc. simpl.
  rewrite Hsp, Hs. simpl. rewrite Hp. simpl. by rewrite Hi, He.
Qed.

Lemma lookup_mapping_cons (k v : Z) (r : list (Z * Z)) (code : Z) :
  lookup_mapping ((k, v) :: r) code =
  if k =? 0 then Ok None
  else if code =? k then Ok (Some v) else lookup_mapping r code.
Proof. reflexivity. Qed.



Lemma lookup_mapping_terminated (rows : list (Z * Z)) (code : Z) :
  terminated rows = true → is_ok (lookup_mapping rows code) = true.
Proof.
  induction rows as [|[k v] r IH]; simpl; [done|].
  destruct (k =? 0); [done|]. simpl. by destruct (code =? k).
Qed.


(** * The shared objects *)

Lemma with_kref_id (s : cougar_shared) : with_kref (kref s) s = s.
Proof. by destruct s. Qed.

Lemma with_kref_with_kref (k k' : Z) (s : cougar_shared) :
  with_kref k (with_kref k' s) = with_kref k s.
Proof. reflexivity. Qed.

Lemma find_shared_app (hdev : hid_device) (mem : gmap ptr cougar_shared)
    (l0 l1 : list ptr) :
  (∀ q, q ∈ l0 → ∃ s, mem !! q = Some s ∧
                      compare_device_paths hdev (dev s) separator = false) →
  find_shared hdev mem (l0 ++ l1) = find_shared hdev mem l1.
Proof.
  induction l0 as [|q l0 IH]; intros Hl0; [done|].
  destruct (Hl0 q) as (s & Hs & Hcmp); [set_solver|].
  simpl. rewrite Hs. simpl. rewrite Hcmp. apply IH.
  intros q' Hq'. apply Hl0. set_solver.
Qed.

Lemma find_shared_total (hdev : hid_device) (mem : gmap ptr cougar_shared)
    (l : list ptr) :
  (∀ q, q ∈ l → is_Some (mem !! q)) →
  (∃ p s, find_shared hdev mem l = Ok (Some p) ∧ p ∈ l ∧ mem !! p = Some s) ∨
  (find_shared hdev mem l = Ok None).
Proof.
  induction l as [|q l IH]; intros Hl; [by right|].
  destruct (Hl q) as [s Hs]; [set_solver|].
  simpl. rewrite Hs. simpl.
  destruct (compare_device_paths hdev (dev s) separator).
  - left. exists q, s. split; [done|]. split; [set_solver | done].
  - destruct IH as [(p & s' & Hf & Hp & Hs') | Hf].
    + intros q' Hq'. apply Hl. set_solver.
    + left. exists p, s'. split; [done|]. split; [set_solver | done].
    + by right.
Qed.

Lemma bind_found (o : outcomes) (hdev : hid_device) (c : ptr) (w : world)
    (g : cougar) (p : ptr) (s : cougar_shared) :
  find_shared hdev (shared_mem w) (cougar_udev_list w) = Ok (Some p) →
  shared_mem w !! p = Some s →
  cougar_mem w !! c = Some g →
  devm_add_action_ret o = 0 →
  cougar_bind_shared_data o hdev c w =
  Ok (0, add_devres (hid hdev) (DevresRemoveSharedData c)
           (put_cougar c (with_shared (Some p) g)
              (put_shared p (with_kref (kref s + 1) s) w))).
Proof.
  intros Hf Hs Hc Ho.
  unfold cougar_bind_shared_data, cougar_get_shared_data, kref_get.
  rewrite Hf. simpl. rewrite Hs. simpl. rewrite Hc. simpl. by rewrite Ho.
Qed.

Lemma bind_fresh (o : outcomes) (hdev : hid_device) (c : ptr) (w : world)
    (g : cougar) :
  find_shared hdev (shared_mem w) (cougar_udev_list w) = Ok None →
  kzalloc_ok o = true →
  cougar_mem w !! c = Some g →
  devm_add_action_ret o = 0 →
  let p := fresh (dom (shared_mem w)) in
  cougar_bind_shared_data o hdev c w =
  Ok (0, add_devres (hid hdev) (DevresRemoveSharedData c)
           (put_cougar c (with_shared (Some p) g)
              (set_udev_list (cougar_udev_list w ++ [p])
                 (put_shared p {| kref := 1; enabled := false; dev := hdev;
                                  input := None |} w)))).
Proof.
  intros Hf Hk Hc Ho p.
  unfold cougar_bind_shared_data, cougar_get_shared_data.
  rewrite Hf. simpl. rewrite Hk. simpl. rewrite Hc. simpl. by rewrite Ho.
Qed.

Lemma remove_shared_data_held (c : ptr) (w : world) (g : cougar) (p : ptr)
    (s : cougar_shared) :
  cougar_mem w !! c = Some g → shared g = Some p →
  shared_mem w !! p = Some s →
  cougar_remove_shared_data c w =
  Ok (put_cougar c (with_shared None g)
        (if kref s - 1 =? 0 then
           set_shared_mem (delete p (shared_mem w))
             (set_udev_list (list_del p (cougar_udev_list w)) w)
         else put_shared p (with_kref (kref s - 1) s) w)).
Proof.
  intros Hc Hg Hs.
  unfold cougar_remove_shared_data, kref_put, cougar_release_shared_data.
  rewrite Hc. simpl. rewrite Hg, Hs. simpl.
  destruct (kref s - 1 =? 0); [|done].
  simpl. rewrite lookup_insert_eq. simpl.
  unfold put_cougar, set_shared_mem, set_udev_list, put_shared, set_cougar_mem.
  simpl. by rewrite delete_insert_eq.
Qed.

Lemma remove_shared_data_free (c : ptr) (w : world) (g : cougar) :
  cougar_mem w !! c = Some g → shared g = None →
  cougar_remove_shared_data c w = Ok w.
Proof.
  intros Hc Hg. unfold cougar_remove_shared_data. rewrite Hc. simpl.
  by rewrite Hg.
Qed.

(** C4: when [cougar_remove_shared_data] has returned, calling it again on
    the same [cougar] returns the very same world: nothing is decremented a
    second time and no other object changes. *)
Theorem remove_shared_data_idempotent (c : ptr) (w w1 : world) :
  cougar_remove_shared_data c w = Ok w1 →
  cougar_remove_shared_data c w1 = Ok w1.
Proof.
  intros H1. unfold cougar_remove_shared_data in H1.
  destruct (cougar_mem w !! c) as [g|] eqn:Hc; [|done]. simpl in H1.
  destruct (shared g) as [p|] eqn:Hg.
  - destruct (kref_put p cougar_release_shared_data w) as [w'|]; [|done].
    simpl in H1. injection H1 as <-.
    apply (remove_shared_data_free _ _ (with_shared None g)); [|done].
    simpl. apply lookup_insert_eq.
  - injection H1 as <-. by apply (remove_shared_data_free _ _ g).
Qed.

Lemma list_del_app_fresh (p : ptr) (l : list ptr) :
  p ∉ l → list_del p (l ++ [p]) = l.
Proof.
  intros Hp. unfold list_del. rewrite filter_app.
  rewrite filter_cons_False by (intros H; by apply H).
  rewrite filter_nil, app_nil_r.
  induction l as [|q l IH]; [done|].
  rewrite filter_cons_True by set_solver. f_equal. apply IH. set_solver.
Qed.

Lemma fresh_not_in_registry (w : world) :
  registry_ok w → fresh (dom (shared_mem w)) ∉ cougar_udev_list w.
Proof.
  intros Hok Hin. destruct (Hok _ Hin) as (s & Hs & _).
  apply (is_fresh (dom (shared_mem w))). apply elem_of_dom. eauto.
Qed.

(** C3: when the probe of a vendor interface of an unbound device fails at
    [hid_hw_open], after the shared data was bound, then once the probe and
    the release of the device's managed resources are over, the list, every
    shared object with its count, and the [cougar] memory are exactly what
    they were before the probe. *)
Theorem probe_open_failure_releases (o : outcomes) (hdev : hid_device)
    (w : world) :
  registry_ok w →
  devres w !! hid hdev = None →
  collection_usage hdev = COUGAR_VENDOR_USAGE →
  devm_kzalloc_ok o = true → hid_parse_ret o = 0 → hid_hw_start_ret o = 0 →
  kzalloc_ok o = true → devm_add_action_ret o = 0 →
  hid_hw_open_ret o ≠ 0 →
  ∃ w', really_probe o hdev w = Ok (hid_hw_open_ret o, w') ∧
        cougar_udev_list w' = cougar_udev_list w ∧
        shared_mem w' = shared_mem w ∧
        cougar_mem w' = cougar_mem w.
Proof.
  intros Hok Hdev Husage Hdk Hparse Hstart Hk Hact Hopen.
  unfold really_probe, cougar_probe.
  rewrite Hdk, Hparse, Hstart, Husage. simpl negb. cbv iota.
  set (c := fresh (dom (cougar_mem w))).
  simpl (cougar_mem _). rewrite lookup_insert_eq. cbn [deref mbind res_bind].
  rewrite Z.eqb_refl. change (COUGAR_VENDOR_USAGE =? HID_GD_KEYBOARD) with false.
  cbv iota.
  destruct (Z.eqb_spec (hid_hw_open_ret o) 0) as [|_]; [done|]. cbn [negb].
  set (W1 := emit _ _).
  assert (HcW1 : cougar_mem W1 !! c
                 = Some {| special_intf := true; shared := None |}).
  { subst W1. simpl. apply lookup_insert_eq. }
  assert (HsW1 : shared_mem W1 = shared_mem w) by done.
  assert (HlW1 : cougar_udev_list W1 = cougar_udev_list w) by done.
  destruct (find_shared_total hdev (shared_mem w) (cougar_udev_list w))
    as [(p & s & Hf & Hp & Hs) | Hf].
  { intros q Hq. destruct (Hok q Hq) as (s & -> & _). eauto. }
  - rewrite (bind_found o hdev c W1 _ p s Hf Hs HcW1 Hact).
    cbn [mbind res_bind]. change (negb (0 =? 0)) with false. cbv iota.
    set (W2 := set_drvdata _ _).
    destruct (Z.eqb_spec (hid_hw_open_ret o) 0) as [|_]; [done|].
    unfold devres_release_all. cbn [mbind res_bind].
    destruct (Z.eqb_spec (hid_hw_open_ret o) 0) as [|_]; [done|].
    assert (devres W2 !! hid hdev
            = Some [DevresRemoveSharedData c; DevresMem c]) as ->.
    { subst W2 W1. simpl. rewrite lookup_insert_eq. simpl.
      rewrite lookup_insert_eq. simpl. by rewrite Hdev. }
    cbn [default from_option id release_nodes].
    assert (HcW2 : cougar_mem W2 !! c
                   = Some {| special_intf := true; shared := Some p |}).
    { subst W2. simpl. apply lookup_insert_eq. }
    assert (HsW2 : shared_mem W2 !! p = Some (with_kref (kref s + 1) s)).
    { subst W2. simpl. apply lookup_insert_eq. }
    rewrite (remove_shared_data_held c W2 _ p _ HcW2 eq_refl HsW2).
    destruct (Hok p Hp) as (s' & Hs' & Hk1). rewrite Hs in Hs'.
    injection Hs' as <-.
    replace (kref (with_kref (kref s + 1) s) - 1) with (kref s) by (simpl; lia).
    destruct (Z.eqb_spec (kref s) 0) as [|_]; [lia|].
    cbn [mbind res_bind]. eexists. split; [reflexivity|].
    subst W2 W1. simpl. split; [done|]. split.
    + rewrite insert_insert_eq, with_kref_with_kref, with_kref_id.
      by apply insert_id.
    + rewrite !insert_insert_eq. rewrite delete_insert_eq.
      apply delete_id. apply not_elem_of_dom, is_fresh.
  - pose proof (bind_fresh o hdev c W1 _ Hf Hk HcW1 Hact) as Hb.
    cbv zeta in Hb. rewrite Hb. clear Hb.
    change (fresh (dom (shared_mem W1))) with (fresh (dom (shared_mem w))).
    set (p := fresh (dom (shared_mem w))).
    cbn [mbind res_bind]. change (negb (0 =? 0)) with false. cbv iota.
    set (W2 := set_drvdata _ _).
    unfold devres_release_all. cbn [mbind res_bind].
    destruct (Z.eqb_spec (hid_hw_open_ret o) 0) as [|_]; [done|].
    assert (devres W2 !! hid hdev
            = Some [DevresRemoveSharedData c; DevresMem c]) as ->.
    { subst W2 W1. simpl. rewrite lookup_insert_eq. simpl.
      rewrite lookup_insert_eq. simpl. by rewrite Hdev. }
    cbn [default from_option id release_nodes].
    assert (HcW2 : cougar_mem W2 !! c
                   = Some {| special_intf := true; shared := Some p |}).
    { subst W2. simpl. apply lookup_insert_eq. }
    assert (HsW2 : shared_mem W2 !! p
                   = Some {| kref := 1; enabled := false; dev := hdev;
                             input := None |}).
    { subst W2. simpl. apply lookup_insert_eq. }
    rewrite (remove_shared_data_held c W2 _ p _ HcW2 eq_refl HsW2).
    cbn [kref]. change (1 - 1 =? 0) with true. cbv iota.
    cbn [mbind res_bind]. eexists. split; [reflexivity|].
    subst W2 W1. simpl. split; [|split].
    + apply list_del_app_fresh. by apply fresh_not_in_registry.
    + rewrite delete_insert_eq. apply delete_id.
      apply not_elem_of_dom, is_fresh.
    + rewrite !insert_insert_eq. rewrite delete_insert_eq.
      apply delete_id. apply not_elem_of_dom, is_fresh.
Qed.

(** * Interfaces acquiring and releasing in any order *)



Section Schedule.

Variable ifs : list interface.
Variable id : string.
Variable l0 : list ptr.
Variable m0 : gmap ptr cougar_shared.

Hypothesis id_nonempty : id ≠ EmptyString.
Hypothesis ifs_paths : ∀ i itf, ifs !! i = Some itf →
  phys_fits (if_dev itf) ∧ path_prefix (phys (if_dev itf)) id.
Hypothesis ifs_cougars : NoDup (if_cougar <$> ifs).
Hypothesis others : ∀ q, q ∈ l0 →
  ∃ s, m0 !! q = Some s ∧
       ∀ i itf, ifs !! i = Some itf →
         compare_device_paths (if_dev itf) (dev s) separator = false.

Let p : ptr := fresh (dom m0).

Lemma p_fresh : m0 !! p = None.
Proof. apply not_elem_of_dom, is_fresh. Qed.

Lemma p_not_listed : p ∉ l0.
Proof.
  intros Hin. destruct (others _ Hin) as (s & Hs & _).
  by rewrite p_fresh in Hs.
Qed.

Lemma cougar_inj (i j : nat) (a b : interface) :
  ifs !! i = Some a → ifs !! j = Some b → if_cougar a = if_cougar b → i = j.
Proof.
  intros Ha Hb Heq.
  apply (NoDup_lookup _ i j (if_cougar a) ifs_cougars);
    rewrite list_lookup_fmap; [by rewrite Ha | by rewrite Hb, Heq].
Qed.

Lemma inv_acquire (held : gset nat) (w : world) (i : nat) (itf : interface) :
  holding ifs l0 m0 held w → ifs !! i = Some itf → i ∉ held →
  ∃ w', acquire itf w = Ok w' ∧ holding ifs l0 m0 ({[i]} ∪ held) w'.
Proof.
  intros [Hc Hr] Hi Hni. fold p in Hc, Hr.
  destruct (Hc i itf Hi) as (g & Hg & Hsh).
  assert (Hsize : size ({[i]} ∪ held) = S (size held)).
  { rewrite size_union by set_solver. by rewrite size_singleton. }
  assert (Hcougars : ∀ w' : world,
    cougar_mem w' = <[if_cougar itf := with_shared (Some p) g]> (cougar_mem w) →
    ∀ j itf', ifs !! j = Some itf' →
      ∃ g', cougar_mem w' !! if_cougar itf' = Some g' ∧
            shared g' = if decide (j ∈ {[i]} ∪ held) then Some p else None).
  { intros w' Hw' j itf' Hj. rewrite Hw'.
    destruct (decide (j = i)) as [->|Hne].
    - rewrite Hi in Hj. injection Hj as <-. rewrite lookup_insert_eq.
      eexists. split; [done|]. rewrite decide_True by set_solver. done.
    - rewrite lookup_insert_ne by (intros Heq; apply Hne; eauto using cougar_inj).
      destruct (Hc j itf' Hj) as (g' & Hg' & Hsh'). exists g'. split; [done|].
      rewrite Hsh'. destruct (decide (j ∈ held));
        [rewrite decide_True by set_solver | rewrite decide_False by set_solver];
        done. }
  unfold acquire.
  destruct (decide (size held = 0%nat)) as [Hz|Hnz].
  - destruct Hr as [Hl Hm].
    assert (Hf : find_shared (if_dev itf) (shared_mem w) (cougar_udev_list w)
                 = Ok None).
    { rewrite Hl, Hm, <- (app_nil_r l0). rewrite find_shared_app; [done|].
      intros q Hq. destruct (others q Hq) as (s & Hs & Hcmp). eauto. }
    pose proof (bind_fresh all_succeed (if_dev itf) (if_cougar itf) w g
                  Hf eq_refl Hg eq_refl) as Hb.
    cbv zeta in Hb. rewrite Hb. cbn [mbind res_bind]. eexists. split; [done|].
    split; fold p.
    + apply Hcougars. simpl. by rewrite Hm.
    + rewrite decide_False by lia. simpl. eexists. rewrite Hl, Hm.
      split; [done|]. split; [done|]. split; [simpl; lia|]. eauto.
  - destruct Hr as (s & Hl & Hm & Hk & j & itf' & Hj & Hdev).
    assert (Hf : find_shared (if_dev itf) (shared_mem w) (cougar_udev_list w)
                 = Ok (Some p)).
    { rewrite Hl, Hm. rewrite find_shared_app.
      - simpl. rewrite lookup_insert_eq. simpl. rewrite Hdev.
        destruct (ifs_paths _ _ Hi), (ifs_paths _ _ Hj).
        by rewrite (same_prefix_matches _ _ id).
      - intros q Hq. destruct (others q Hq) as (s' & Hs' & Hcmp).
        exists s'. split; [|eauto].
        rewrite lookup_insert_ne; [done|]. intros <-.
        by apply p_not_listed. }
    assert (Hs : shared_mem w !! p = Some s)
      by (rewrite Hm; apply lookup_insert_eq).
    rewrite (bind_found all_succeed (if_dev itf) (if_cougar itf) w g p s
               Hf Hs Hg eq_refl).
    cbn [mbind res_bind]. eexists. split; [done|]. split; fold p.
    + by apply Hcougars.
    + rewrite decide_False by lia. simpl. eexists. rewrite Hl, Hm.
      split; [done|]. split; [by rewrite insert_insert_eq|].
      split; [simpl; lia|]. eauto.
Qed.

Lemma inv_release (held : gset nat) (w : world) (i : nat) (itf : interface) :
  holding ifs l0 m0 held w → ifs !! i = Some itf → i ∈ held →
  ∃ w', release itf w = Ok w' ∧ holding ifs l0 m0 (held ∖ {[i]}) w'.
Proof.
  intros [Hc Hr] Hi Hin. fold p in Hc, Hr.
  destruct (Hc i itf Hi) as (g & Hg & Hsh).
  rewrite decide_True in Hsh by done.
  assert (Hsize : size held = S (size (held ∖ {[i]}))).
  { rewrite (union_difference_L {[i]} held) at 1 by set_solver.
    rewrite size_union by set_solver. by rewrite size_singleton. }
  rewrite decide_False in Hr by lia.
  destruct Hr as (s & Hl & Hm & Hk & j & itf' & Hj & Hdev).
  assert (Hs : shared_mem w !! p = Some s)
    by (rewrite Hm; apply lookup_insert_eq).
  unfold release.
  rewrite (remove_shared_data_held (if_cougar itf) w g p s Hg Hsh Hs).
  eexists. split; [done|]. split; fold p.
  - intros k itf'' Hk'.
    assert (cougar_mem
              (put_cougar (if_cougar itf) (with_shared None g)
                 (if kref s - 1 =? 0
                  then set_shared_mem (delete p (shared_mem w))
                         (set_udev_list (list_del p (cougar_udev_list w)) w)
                  else put_shared p (with_kref (kref s - 1) s) w))
            = <[if_cougar itf := with_shared None g]> (cougar_mem w)) as ->
      by (by destruct (kref s - 1 =? 0)).
    destruct (decide (k = i)) as [->|Hne].
    + rewrite Hi in Hk'. injection Hk' as <-. rewrite lookup_insert_eq.
      eexists. split; [done|]. rewrite decide_False by set_solver. done.
    + rewrite lookup_insert_ne
        by (intros Heq; apply Hne; symmetry; eauto using cougar_inj).
      destruct (Hc k itf'' Hk') as (g' & Hg' & Hsh'). exists g'.
      split; [done|]. rewrite Hsh'. destruct (decide (k ∈ held));
        [rewrite decide_True by set_solver | rewrite decide_False by set_solver];
        done.
  - destruct (Z.eqb_spec (kref s - 1) 0) as [Hone|Hmore].
    + rewrite decide_True by lia. simpl. rewrite Hl, Hm.
      split; [apply list_del_app_fresh, p_not_listed|].
      rewrite delete_insert_eq. apply delete_id, p_fresh.
    + rewrite decide_False by lia. simpl. eexists. rewrite Hl, Hm.
      split; [done|]. split; [by rewrite insert_insert_eq|].
      split; [simpl; lia|]. eauto.
Qed.

Lemma run_holding (ops : list op) (held held' : gset nat) (w : world) :
  holding ifs l0 m0 held w →
  schedule (length ifs) held ops = Some held' →
  ∃ w', run ifs ops w = Ok w' ∧ holding ifs l0 m0 held' w'.
Proof.
  revert held w. induction ops as [|[i|i] r IH]; intros held w Hinv Hs;
    simpl in Hs.
  - injection Hs as <-. by exists w.
  - destruct (decide _) as [[Hlt Hni]|]; [|done].
    destruct (lookup_lt_is_Some_2 ifs i Hlt) as [itf Hi].
    destruct (inv_acquire held w i itf Hinv Hi Hni) as (w1 & Ha & Hinv1).
    destruct (IH _ _ Hinv1 Hs) as (w' & Hrun & Hinv').
    exists w'. split; [|done]. simpl. rewrite Hi. simpl. by rewrite Ha.
  - destruct (decide _) as [[Hlt Hin]|]; [|done].
    destruct (lookup_lt_is_Some_2 ifs i Hlt) as [itf Hi].
    destruct (inv_release held w i itf Hinv Hi Hin) as (w1 & Ha & Hinv1).
    destruct (IH _ _ Hinv1 Hs) as (w' & Hrun & Hinv').
    exists w'. split; [|done]. simpl. rewrite Hi. simpl. by rewrite Ha.
Qed.

End Schedule.

(** * The table and the gate over every run *)

Lemma quiet_refl (w : world) : quiet w w.
Proof. repeat split; eauto. Qed.

Lemma quiet_trans (w1 w2 w3 : world) : quiet w1 w2 → quiet w2 w3 → quiet w1 w3.
Proof.
  intros (Hg & Hm & He) (Hg' & Hm' & He'). repeat split; [congruence..|].
  intros p s3 H3 Hen. destruct (He' p s3 H3 Hen) as (s2 & H2 & Hen2). eauto.
Qed.

(** A world that differs from [w] outside the parameter, the table and the
    shared objects. *)
Lemma quiet_frame (w w' : world) :
  cougar_g6_is_space w' = cougar_g6_is_space w →
  cougar_mapping w' = cougar_mapping w →
  shared_mem w' = shared_mem w →
  quiet w w'.
Proof. intros Hg Hm Hs. repeat split; [done..|]. rewrite Hs. eauto. Qed.

Lemma quiet_put_shared (p : ptr) (s s' : cougar_shared) (w : world) :
  shared_mem w !! p = Some s → (enabled s' = true → enabled s = true) →
  quiet w (put_shared p s' w).
Proof.
  intros Hs Hen. repeat split; [done..|]. intros q s'' Hq Hen'. simpl in Hq.
  destruct (decide (p = q)) as [<-|Hne].
  - rewrite lookup_insert_eq in Hq. injection Hq as <-. eauto.
  - rewrite lookup_insert_ne in Hq by done. eauto.
Qed.

Lemma quiet_put_disabled (p : ptr) (s' : cougar_shared) (w : world) :
  enabled s' = false → quiet w (put_shared p s' w).
Proof.
  intros Hen. repeat split; [done..|]. intros q s'' Hq Hen'. simpl in Hq.
  destruct (decide (p = q)) as [<-|Hne].
  - rewrite lookup_insert_eq in Hq. injection Hq as <-. congruence.
  - rewrite lookup_insert_ne in Hq by done. eauto.
Qed.

Lemma quiet_delete (p : ptr) (w w' : world) :
  cougar_g6_is_space w' = cougar_g6_is_space w →
  cougar_mapping w' = cougar_mapping w →
  shared_mem w' = delete p (shared_mem w) →
  quiet w w'.
Proof.
  intros Hg Hm Hs. repeat split; [done..|]. rewrite Hs. intros q s' Hq Hen.
  apply lookup_delete_Some in Hq as [_ Hq]. eauto.
Qed.

Lemma kref_get_quiet (p : ptr) (w w' : world) :
  kref_get p w = Ok w' → quiet w w'.
Proof.
  unfold kref_get. destruct (shared_mem w !! p) as [s|] eqn:Hs; [|done].
  simpl. intros [= <-]. by apply (quiet_put_shared p s).
Qed.

Lemma release_quiet (p : ptr) (w w' : world) :
  cougar_release_shared_data p w = Ok w' → quiet w w'.
Proof.
  unfold cougar_release_shared_data.
  destruct (shared_mem w !! p) as [s|]; [|done]. simpl. intros [= <-].
  by apply (quiet_delete p).
Qed.

Lemma kref_put_quiet (p : ptr) (w w' : world) :
  kref_put p cougar_release_shared_data w = Ok w' → quiet w w'.
Proof.
  unfold kref_put. destruct (shared_mem w !! p) as [s|] eqn:Hs; [|done].
  simpl. intros H.
  apply (quiet_trans _ (put_shared p (with_kref (kref s - 1) s) w)).
  { by apply (quiet_put_shared p s). }
  destruct (kref s - 1 =? 0); [by apply (release_quiet p)|].
  injection H as <-. apply quiet_refl.
Qed.

Lemma remove_shared_data_quiet (c : ptr) (w w' : world) :
  cougar_remove_shared_data c w = Ok w' → quiet w w'.
Proof.
  unfold cougar_remove_shared_data.
  destruct (cougar_mem w !! c) as [g|]; [|done]. simpl.
  destruct (shared g) as [p|]; [|intros [= <-]; apply quiet_refl].
  destruct (kref_put p cougar_release_shared_data w) as [w1|] eqn:Hput;
    [|done].
  simpl. intros [= <-]. apply (quiet_trans _ w1); [by apply (kref_put_quiet p)|].
  by apply quiet_frame.
Qed.

Lemma get_shared_data_quiet (hdev : hid_device) (w w' : world)
    (found : option ptr) :
  cougar_get_shared_data hdev w = Ok (found, w') → quiet w w'.
Proof.
  unfold cougar_get_shared_data.
  destruct (find_shared _ _ _) as [[p|]|]; simpl; [| |done].
  - destruct (kref_get p w) as [w1|] eqn:Hget; [|done]. simpl.
    intros [= _ <-]. by apply (kref_get_quiet p).
  - intros [= _ <-]. apply quiet_refl.
Qed.

Lemma bind_shared_data_quiet (o : outcomes) (hdev : hid_device) (c : ptr)
    (w w' : world) (error : Z) :
  cougar_bind_shared_data o hdev c w = Ok (error, w') → quiet w w'.
Proof.
  unfold cougar_bind_shared_data.
  destruct (cougar_get_shared_data hdev w) as [[found w1]|] eqn:Hget; [|done].
  apply get_shared_data_quiet in Hget. simpl.
  assert (Hrest : ∀ p w2, quiet w w2 →
    (g ← deref (cougar_mem w2 !! c);
     let w3 := put_cougar c (with_shared (Some p) g) w2 in
     if devm_add_action_ret o =? 0
     then Ok (0, add_devres (hid hdev) (DevresRemoveSharedData c) w3)
     else w4 ← cougar_remove_shared_data c w3;
          Ok (devm_add_action_ret o, w4)) = Ok (error, w') → quiet w w').
  { intros p w2 Hq. destruct (cougar_mem w2 !! c) as [g|]; [|done]. simpl.
    destruct (devm_add_action_ret o =? 0).
    - intros [= _ <-]. apply (quiet_trans _ w2); [done|]. by apply quiet_frame.
    - destruct (cougar_remove_shared_data c _) as [w4|] eqn:Hrm; [|done].
      simpl. intros [= _ <-]. apply remove_shared_data_quiet in Hrm.
      apply (quiet_trans _ w2); [done|].
      eapply quiet_trans; [|exact Hrm]. by apply quiet_frame. }
  destruct found as [p|].
  - by apply Hrest.
  - destruct (kzalloc_ok o).
    + apply Hrest. apply (quiet_trans _ w1); [done|].
      apply (quiet_trans _ (put_shared (fresh (dom (shared_mem w1)))
               {| kref := 1; enabled := false; dev := hdev; input := None |}
               w1)).
      * by apply quiet_put_disabled.
      * by apply quiet_frame.
    + intros [= _ <-]. done.
Qed.

Lemma cougar_remove_quiet (hdev : hid_device) (w w' : world) :
  cougar_remove hdev w = Ok w' → quiet w w'.
Proof.
  unfold cougar_remove.
  destruct (drvdata w !! hid hdev) as [c|]; simpl;
    [|intros [= <-]; by apply quiet_frame].
  destruct (cougar_mem w !! c) as [g|]; [|done]. simpl.
  destruct (shared g) as [p|]; simpl.
  - destruct (shared_mem w !! p) as [s|] eqn:Hs; [|done]. simpl.
    intros [= <-].
    apply (quiet_trans _ (put_shared p (with_enabled false s) w)).
    + by apply quiet_put_disabled.
    + apply quiet_frame; by destruct (special_intf g).
  - intros [= <-]. apply quiet_frame; by destruct (special_intf g).
Qed.

Lemma release_nodes_quiet (nodes : list devres_node) (w w' : world) :
  release_nodes nodes w = Ok w' → quiet w w'.
Proof.
  revert w. induction nodes as [|[c|c] r IH]; intros w; simpl.
  - intros [= <-]. apply quiet_refl.
  - intros H. apply IH in H. eapply quiet_trans; [|exact H].
    by apply quiet_frame.
  - destruct (cougar_remove_shared_data c w) as [w1|] eqn:Hrm; [|done].
    simpl. intros H. apply IH in H. apply remove_shared_data_quiet in Hrm.
    by apply (quiet_trans _ w1).
Qed.

Lemma devres_release_all_quiet (h : nat) (w w' : world) :
  devres_release_all h w = Ok w' → quiet w w'.
Proof.
  unfold devres_release_all.
  destruct (release_nodes _ w) as [w1|] eqn:Hn; [|done]. simpl.
  intros [= <-]. apply release_nodes_quiet in Hn.
  apply (quiet_trans _ w1); [done|]. by apply quiet_frame.
Qed.

Lemma release_driver_quiet (hdev : hid_device) (w w' : world) :
  device_release_driver hdev w = Ok w' → quiet w w'.
Proof.
  unfold device_release_driver.
  destruct (cougar_remove hdev w) as [w1|] eqn:Hr; [|done]. simpl.
  intros H. apply devres_release_all_quiet in H.
  apply cougar_remove_quiet in Hr. by apply (quiet_trans _ w1).
Qed.

Lemma raw_event_quiet (hdev : hid_device) (data : list Z) (w w' : world)
    (ret : Z) :
  cougar_raw_event hdev data w = Ok (ret, w') → quiet w w'.
Proof.
  unfold cougar_raw_event.
  destruct (drvdata w !! hid hdev) as [c|]; [|done]. simpl.
  destruct (cougar_mem w !! c) as [g|]; [|done]. simpl.
  destruct (special_intf g); simpl; [|intros [= _ <-]; apply quiet_refl].
  destruct (shared g) as [p|]; [|intros [= _ <-]; apply quiet_refl].
  destruct (shared_mem w !! p) as [s|]; [|done]. simpl.
  destruct (input s) as [i|]; [|intros [= _ <-]; apply quiet_refl].
  destruct (enabled s); simpl; [|intros [= _ <-]; apply quiet_refl].
  destruct (index data COUGAR_FIELD_CODE) as [code|]; [|done]. simpl.
  destruct (index data COUGAR_FIELD_ACTION) as [action|]; [|done]. simpl.
  destruct (lookup_mapping _ code) as [[k|]|]; [| |done]; simpl;
    intros [= _ <-]; by apply quiet_frame.
Qed.

Lemma fix_g6_rows_init (g6 : Z) :
  fix_g6_rows g6 cougar_mapping_init
  = Ok (Some ((COUGAR_KEY_G6, to_u8 (g6_target g6)) :: tail cougar_mapping_init)).
Proof. reflexivity. Qed.

Lemma fix_g6_mapping_configures (w w2 : world) :
  configured w ∨ cougar_mapping w = cougar_mapping_init →
  cougar_fix_g6_mapping w = Ok w2 →
  configured w2 ∧ cougar_g6_is_space w2 = cougar_g6_is_space w ∧
  shared_mem w2 = shared_mem w.
Proof.
  intros Hw. unfold cougar_fix_g6_mapping.
  assert (fix_g6_rows (cougar_g6_is_space w) (cougar_mapping w)
          = fix_g6_rows (cougar_g6_is_space w) cougar_mapping_init) as ->.
  { destruct Hw as [Hc | ->]; [|done]. unfold configured in Hc.
    rewrite fix_g6_rows_init in Hc. injection Hc as <-. reflexivity. }
  rewrite fix_g6_rows_init. simpl. intros [= <-].
  split; [|done]. reflexivity.
Qed.

Lemma probe_cases (o : outcomes) (hdev : hid_device) (w w' : world)
    (error : Z) :
  cougar_probe o hdev w = Ok (error, w') →
  (quiet w w' ∧ (error = 0 → collection_usage hdev ≠ HID_GD_KEYBOARD)) ∨
  (collection_usage hdev = HID_GD_KEYBOARD ∧ error = 0 ∧
   ∃ w1 w2, quiet w w1 ∧ cougar_fix_g6_mapping w1 = Ok w2 ∧
            cougar_g6_is_space w' = cougar_g6_is_space w2 ∧
            cougar_mapping w' = cougar_mapping w2).
Proof.
  unfold cougar_probe.
  destruct (devm_kzalloc_ok o); simpl negb; cbv iota;
    [|intros [= <- <-]; left; split; [apply quiet_refl | done]].
  set (c := fresh (dom (cougar_mem w))).
  set (W0 := set_drvdata (<[hid hdev := c]> _) _).
  assert (H0 : quiet w W0) by by apply quiet_frame.
  destruct (Z.eqb_spec (hid_parse_ret o) 0) as [_|Hparse]; simpl negb; cbv iota;
    [|intros [= <- <-]; left; split; [|done]; eapply quiet_trans; [exact H0|];
      by apply quiet_frame].
  assert (cougar_mem W0 !! c = Some {| special_intf := false; shared := None |})
    as -> by (subst W0; simpl; apply lookup_insert_eq).
  cbn [deref mbind res_bind].
  set (W1 := if collection_usage hdev =? COUGAR_VENDOR_USAGE then _ else W0).
  assert (H1 : quiet w W1).
  { eapply quiet_trans; [exact H0|]. subst W1.
    destruct (_ =? COUGAR_VENDOR_USAGE); [by apply quiet_frame | apply quiet_refl]. }
  destruct (Z.eqb_spec (hid_hw_start_ret o) 0) as [_|Hstart]; simpl negb;
    cbv iota;
    [|intros [= <- <-]; left; split; [|done]; eapply quiet_trans; [exact H1|];
      by apply quiet_frame].
  set (W2 := emit _ W1).
  assert (H2 : quiet w W2)
    by (eapply quiet_trans; [exact H1 | by apply quiet_frame]).
  destruct (cougar_bind_shared_data o hdev c W2) as [[e W3]|] eqn:Hbind;
    [|done].
  apply bind_shared_data_quiet in Hbind.
  assert (H3 : quiet w W3) by by apply (quiet_trans _ W2).
  cbn [mbind res_bind].
  destruct (Z.eqb_spec e 0) as [_|He]; simpl negb; cbv iota;
    [|intros [= <- <-]; left; split; [|done]; eapply quiet_trans; [exact H3|];
      by apply quiet_frame].
  destruct (Z.eqb_spec (collection_usage hdev) HID_GD_KEYBOARD) as [Hk|Hk].
  - destruct (cougar_fix_g6_mapping W3) as [W4|] eqn:Hfix; [|done].
    cbn [mbind res_bind]. intros H. right. split; [done|].
    assert (error = 0 ∧ cougar_g6_is_space w' = cougar_g6_is_space W4 ∧
            cougar_mapping w' = cougar_mapping W4) as (-> & Hg & Hm).
    { destruct (first_registered (inputs hdev)) as [i|].
      - destruct (cougar_mem W4 !! c) as [g|]; [|done]. simpl in H.
        destruct (shared g) as [p|]; [|done]. simpl in H.
        destruct (shared_mem W4 !! p) as [s|]; [|done]. simpl in H.
        rewrite lookup_insert_eq in H. simpl in H. by injection H as <- <-.
      - by injection H as <- <-. }
    split; [done|]. exists W3, W4. done.
  - destruct (collection_usage hdev =? COUGAR_VENDOR_USAGE).
    + destruct (hid_hw_open_ret o =? 0); simpl negb; cbv iota;
        intros [= _ <-]; left; (split; [|done]);
        (eapply quiet_trans; [exact H3|]); by apply quiet_frame.
    + intros [= _ <-]. by left.
Qed.

Lemma really_probe_cases (o : outcomes) (hdev : hid_device) (w w' : world)
    (error : Z) :
  really_probe o hdev w = Ok (error, w') →
  (quiet w w' ∧ (error = 0 → collection_usage hdev ≠ HID_GD_KEYBOARD)) ∨
  (collection_usage hdev = HID_GD_KEYBOARD ∧ error = 0 ∧
   ∃ w1 w2, quiet w w1 ∧ cougar_fix_g6_mapping w1 = Ok w2 ∧
            cougar_g6_is_space w' = cougar_g6_is_space w2 ∧
            cougar_mapping w' = cougar_mapping w2).
Proof.
  unfold really_probe.
  destruct (cougar_probe o hdev w) as [[e w1]|] eqn:Hp; [|done].
  cbn [mbind res_bind]. destruct (Z.eqb_spec e 0) as [->|He].
  - intros [= <- <-]. by apply probe_cases in Hp.
  - destruct (devres_release_all (hid hdev) w1) as [w2|] eqn:Hr; [|done].
    cbn [mbind res_bind]. intros [= <- <-].
    apply devres_release_all_quiet in Hr.
    apply probe_cases in Hp as [[Hq _] | (_ & ? & _)]; [|done].
    left. split; [|done]. by apply (quiet_trans _ w1).
Qed.

Lemma quiet_inv (g6 : Z) (w w' : world) :
  quiet w w' → mapping_inv g6 w → mapping_inv g6 w'.
Proof.
  intros (Hg & Hm & He) [Hg6 Hinv]. split; [congruence|].
  destruct Hinv as [Hc | [Hinit Hno]].
  - left. unfold configured in *. by rewrite Hg, Hm.
  - right. split; [congruence|]. intros (p & s' & Hs' & Hen).
    apply Hno. destruct (He p s' Hs' Hen) as (s & ? & ?). by exists p, s.
Qed.

Lemma mapping_inv_either (g6 : Z) (w : world) :
  mapping_inv g6 w → configured w ∨ cougar_mapping w = cougar_mapping_init.
Proof. intros [_ [?|[? _]]]; eauto. Qed.

Lemma fix_after_quiet (g6 : Z) (w w1 w2 w' : world) :
  mapping_inv g6 w → quiet w w1 → cougar_fix_g6_mapping w1 = Ok w2 →
  cougar_g6_is_space w' = cougar_g6_is_space w2 →
  cougar_mapping w' = cougar_mapping w2 →
  configured w' ∧ cougar_g6_is_space w' = g6.
Proof.
  intros Hinv Hq Hfix Hg Hm. pose proof (quiet_inv _ _ _ Hq Hinv) as Hinv1.
  destruct (fix_g6_mapping_configures w1 w2 (mapping_inv_either _ _ Hinv1) Hfix)
    as (Hc & Hg2 & _).
  split; [unfold configured in *; by rewrite Hg, Hm|].
  destruct Hinv1 as [<- _]. congruence.
Qed.

Lemma step_inv (g6 : Z) (w w' : world) :
  step w w' → mapping_inv g6 w → mapping_inv g6 w'.
Proof.
  intros Hstep Hinv. destruct Hstep as [o hdev w e w' H | hdev w w' H | hdev data w e w' H].
  - apply really_probe_cases in H
      as [[Hq _] | (_ & _ & w1 & w2 & Hq & Hfix & Hg & Hm)].
    + by apply (quiet_inv _ w).
    + destruct (fix_after_quiet g6 w w1 w2 w' Hinv Hq Hfix Hg Hm). split; eauto.
  - apply release_driver_quiet in H. by apply (quiet_inv _ w).
  - apply raw_event_quiet in H. by apply (quiet_inv _ w).
Qed.

Lemma reachable_inv (g6 : Z) (w : world) :
  reachable g6 w → mapping_inv g6 w.
Proof.
  unfold reachable. revert w.
  apply (rtc_ind_r (R := step) (mapping_inv g6)).
  - split; [done|]. right. split; [done|].
    intros (p & s & Hs & _). simpl in Hs. by rewrite lookup_empty in Hs.
  - intros w1 w2 _ Hstep IH. by apply (step_inv g6 w1).
Qed.

Lemma holding_initially (ifs : list interface) (w : world) :
  unbound ifs w →
  holding ifs (cougar_udev_list w) (shared_mem w) ∅ w.
Proof.
  intros [_ Hc]. split.
  - intros i itf Hi. destruct (Hc i itf Hi) as (g & Hg & Hs). exists g.
    split; [done|]. by rewrite decide_False by set_solver.
  - by rewrite decide_True by apply size_empty.
Qed.


(** The part of C1 that holds: two interfaces of one device end up on one
    object counted twice. *)
Lemma identity_grouping (a b : interface) (id : string) (w : world) :
  same_device [a; b] id → unbound [a; b] w → foreign [a; b] w →
  ∃ w' p s ga gb,
    run [a; b] [Acquire 0; Acquire 1] w = Ok w' ∧
    cougar_mem w' !! if_cougar a = Some ga ∧ shared ga = Some p ∧
    cougar_mem w' !! if_cougar b = Some gb ∧ shared gb = Some p ∧
    shared_mem w' !! p = Some s ∧ kref s = 2.
Proof.
  intros [Hid Hpaths] Hunb Hfor.
  destruct (run_holding [a; b] id (cougar_udev_list w) (shared_mem w)
              Hid Hpaths (proj1 Hunb) Hfor [Acquire 0; Acquire 1] ∅
              ({[1%nat]} ∪ ({[0%nat]} ∪ ∅)) w
              (holding_initially _ w Hunb) eq_refl) as (w' & Hrun & Hc & Hreg).
  assert (Hsz : size ({[1%nat]} ∪ ({[0%nat]} ∪ ∅) : gset nat) = 2%nat).
  { rewrite size_union by set_solver. rewrite size_union by set_solver.
    by rewrite !size_singleton, size_empty. }
  rewrite Hsz in Hreg. rewrite decide_False in Hreg by lia.
  destruct Hreg as (s & _ & Hm & Hk & _).
  destruct (Hc 0%nat a eq_refl) as (ga & Hga & Hsa).
  destruct (Hc 1%nat b eq_refl) as (gb & Hgb & Hsb).
  rewrite decide_True in Hsa by set_solver.
  rewrite decide_True in Hsb by set_solver.
  exists w', (fresh (dom (shared_mem w))), s, ga, gb.
  repeat split; try done. rewrite Hm. apply lookup_insert_eq.
Qed.



(** * The statements at concrete devices *)

(** C1 fails on the code: two devices whose paths are the same string
    without separator, in arrays 4 GiB apart so that the truncated
    differences NULL - phys are equal and positive, compare as one device;
    probing both puts them on one shared object counted twice. *)
Theorem absent_separator_grouped :
  no_separator (phys Demo.plain_a) ∧ no_separator (phys Demo.plain_b) ∧
  compare_device_paths Demo.plain_b Demo.plain_a separator = true ∧
  ∃ w1 w2 p s,
    really_probe all_succeed Demo.plain_a (module_loaded 1) = Ok (0, w1) ∧
    really_probe all_succeed Demo.plain_b w1 = Ok (0, w2) ∧
    cougar_udev_list w2 = [p] ∧
    shared_mem w2 !! p = Some s ∧ kref s = 2 ∧ dev s = Demo.plain_a.
Proof.
  split; [done|]. split; [done|]. split; [by vm_compute|].
  eexists _, _, _, _. split; [by vm_compute|]. split; [by vm_compute|].
  split; [by vm_compute|]. split; [by vm_compute|]. done.
Qed.

(** What a path without separator compares to depends on where the arrays
    are: the same two paths in arrays 8 KiB apart do not match. *)
Lemma absent_separator_elsewhere :
  let a := {| hid := 3; phys := "cougar"; phys_addr := 0xffff8880c0001240;
              collection_usage := COUGAR_VENDOR_USAGE; inputs := [] |} in
  let b := {| hid := 4; phys := "cougar"; phys_addr := 0xffff8880c0003240;
              collection_usage := COUGAR_VENDOR_USAGE; inputs := [] |} in
  compare_device_paths b a separator = false.
Proof. by vm_compute. Qed.


Lemma probe_open_failure_releases_witness :
  ∃ w', really_probe Demo.open_fails Demo.vendor (Demo.keyboard_probed 1)
        = Ok (-5, w') ∧
        cougar_udev_list w' = cougar_udev_list (Demo.keyboard_probed 1) ∧
        shared_mem w' = shared_mem (Demo.keyboard_probed 1) ∧
        cougar_mem w' = cougar_mem (Demo.keyboard_probed 1).
Proof.
  apply (probe_open_failure_releases Demo.open_fails Demo.vendor
           (Demo.keyboard_probed 1)); try reflexivity.
  - intros p Hp. change (p ∈ [1%positive]) in Hp.
    apply list_elem_of_singleton in Hp as ->.
    eexists. split; [by vm_compute|]. simpl. lia.
  - simpl. lia.
Defined.

Lemma remove_shared_data_idempotent_witness :
  ∃ w1, cougar_remove_shared_data 2%positive (Demo.both_probed 1) = Ok w1 ∧
        cougar_remove_shared_data 2%positive w1 = Ok w1.
Proof.
  eexists. split; [by vm_compute|].
  apply (remove_shared_data_idempotent 2%positive (Demo.both_probed 1)).
  by vm_compute.
Defined.

Lemma raw_event_gated_witness :
  cougar_raw_event Demo.vendor [1; 0x78; 1] (Demo.vendor_probed 1)
  = Ok (0, Demo.vendor_probed 1).
Proof.
  apply (raw_event_gated Demo.vendor [1; 0x78; 1] (Demo.vendor_probed 1)).
  eexists _, _. split; [by vm_compute|]. split; [by vm_compute|].
  right. right. eexists _, _. split; [by vm_compute|].
  split; [by vm_compute|]. by left.
Defined.

Lemma both_probed_gate_open (g6 : Z) :
  gate_open Demo.vendor (Demo.both_probed g6) 7%positive.
Proof.
  eexists _, _, _, _. split; [by vm_compute|]. split; [by vm_compute|].
  split; [done|]. split; [done|]. split; [by vm_compute|]. done.
Qed.








(** C10 fails as stated: a descriptor of three bytes whose byte 2 is not
    0x09 is handled without any read out of bounds, although it is shorter
    than 117 bytes. *)
Lemma report_fixup_short_descriptor :
  is_ok (cougar_report_fixup HID_MAX_USAGES [0x05; 0x01; 0x00]) = true ∧
  ¬ (117 ≤ length [0x05; 0x01; 0x00])%nat ∧
  ¬ (∀ rdesc, is_ok (cougar_report_fixup HID_MAX_USAGES rdesc) = true
              ↔ (117 ≤ length rdesc)%nat).
Proof.
  split; [done|]. split; [simpl; lia|].
  intros H. destruct (H [0x05; 0x01; 0x00]) as [H1 _].
  specialize (H1 eq_refl). simpl in H1. lia.
Qed.

(** A table without a row for G6: the probe of the keyboard logs the
    warning and succeeds. *)
Lemma keyboard_probe_without_g6_row :
  let w := set_mapping [(COUGAR_KEY_G1, KEY_F13); (0, 0)] (module_loaded 1) in
  fix_g6_rows (cougar_g6_is_space w) (cougar_mapping w) = Ok None ∧
  ∃ w', really_probe all_succeed Demo.keyboard w = Ok (0, w') ∧
        cougar_mapping w' = cougar_mapping w ∧
        HidWarn "no mapping defined for G6/spacebar" ∈ trace w'.
Proof.
  split; [done|]. eexists. split; [by vm_compute|]. split; [by vm_compute|].
  vm_compute. set_solver.
Qed.

(** After [cougar_remove] of an interface the gate is closed for every
    interface on the same shared object. *)
Lemma remove_closes_gate (hdev_r hdev_v : hid_device) (w w' : world)
    (cr cv : ptr) (gr gv : cougar) (p : ptr) :
  drvdata w !! hid hdev_r = Some cr → cougar_mem w !! cr = Some gr →
  shared gr = Some p →
  drvdata w !! hid hdev_v = Some cv → cougar_mem w !! cv = Some gv →
  shared gv = Some p →
  cougar_remove hdev_r w = Ok w' →
  gate_closed hdev_v w'.
Proof.
  intros Hdr Hcr Hsr Hdv Hcv Hsv. unfold cougar_remove.
  rewrite Hdr. simpl. rewrite Hcr. simpl. rewrite Hsr.
  destruct (shared_mem w !! p) as [s|] eqn:Hs; [|done]. simpl.
  intros [= <-]. exists cv, gv.
  split; [by destruct (special_intf gr)|].
  split; [by destruct (special_intf gr)|].
  right. right. exists p, (with_enabled false s). split; [done|].
  split; [|by right].
  destruct (special_intf gr); simpl; apply lookup_insert_eq.
Qed.

(** * More on device paths *)

Lemma strncmp_nil_l (ct : string) (count : Z) :
  CStr.strncmp EmptyString ct count =
  if count <=? 0 then 0
  else if Ascii.eqb CStr.NUL (CStr.first ct) then 0 else -1.
Proof. reflexivity. Qed.

Lemma strncmp_sign (c1 c2 : ascii) :
  (if CStr.uchar c1 <? CStr.uchar c2 then -1 else 1) ≠ 0.
Proof. by destruct (_ <? _). Qed.

Lemma strncmp_zero_sym (cs ct : string) (count : Z) :
  CStr.strncmp cs ct count = 0 → CStr.strncmp ct cs count = 0.
Proof.
  revert ct count. induction cs as [|c1 r1 IH]; intros ct count.
  - rewrite strncmp_nil_l. destruct ct as [|c2 r2].
    + by rewrite strncmp_nil_l.
    + rewrite strncmp_cons. destruct (count <=? 0); [done|].
      change (CStr.first (String c2 r2)) with c2.
      change (CStr.first EmptyString) with CStr.NUL.
      rewrite (Ascii.eqb_sym c2 CStr.NUL).
      destruct (Ascii.eqb CStr.NUL c2); [done|]. intros; lia.
  - rewrite strncmp_cons. destruct ct as [|c2 r2].
    + rewrite strncmp_nil_l. destruct (count <=? 0); [done|].
      change (CStr.first EmptyString) with CStr.NUL.
      change (CStr.first (String c1 r1)) with c1.
      rewrite (Ascii.eqb_sym CStr.NUL c1).
      destruct (Ascii.eqb c1 CStr.NUL); simpl; [done|].
      intros H. by apply strncmp_sign in H.
    + rewrite strncmp_cons. destruct (count <=? 0); [done|].
      change (CStr.first (String c2 r2)) with c2.
      change (CStr.first (String c1 r1)) with c1.
      change (CStr.rest (String c2 r2)) with r2.
      change (CStr.rest (String c1 r1)) with r1.
      rewrite (Ascii.eqb_sym c2 c1).
      destruct (Ascii.eqb_spec c1 c2) as [->|Hne]; simpl.
      * destruct (Ascii.eqb c2 CStr.NUL); [done | apply IH].
      * intros H. by apply strncmp_sign in H.
Qed.

(** X1: [compare_device_paths] is symmetric: whatever the two devices and
    the separator, comparing a with b gives what comparing b with a
    gives. *)
Theorem compare_device_paths_sym (hdev_a hdev_b : hid_device) (sep : ascii) :
  compare_device_paths hdev_a hdev_b sep
  = compare_device_paths hdev_b hdev_a sep.
Proof.
  unfold compare_device_paths.
  set (n1 := to_int _). set (n2 := to_int _).
  rewrite (Z.eqb_sym n2 n1).
  destruct (Z.eqb_spec n1 n2) as [<-|Hne]; simpl; [|by rewrite !orb_true_r || done].
  destruct (n1 <=? 0); simpl; [done|].
  destruct (Z.eqb_spec (CStr.strncmp (phys hdev_a) (phys hdev_b) n1) 0) as [H|H];
    destruct (Z.eqb_spec (CStr.strncmp (phys hdev_b) (phys hdev_a) n1) 0) as [H'|H'];
    try done.
  - by apply strncmp_zero_sym in H.
  - by apply strncmp_zero_sym in H'.
Qed.

Lemma strncmp_prefixes_equal (p q a b : string) :
  String.length p = String.length q →
  has_char CStr.NUL p = false →
  CStr.strncmp (String.append p a) (String.append q b)
    (Z.of_nat (String.length p)) = 0 →
  p = q.
Proof.
  revert q. induction p as [|x r IH]; intros q Hlen Hnul Hcmp.
  - by destruct q.
  - destruct q as [|y s]; [done|]. simpl in Hlen.
    rewrite has_char_cons in Hnul. apply orb_false_elim in Hnul as [Hx0 Hnul].
    rewrite !append_cons, strncmp_cons in Hcmp. simpl String.length in Hcmp.
    destruct (Z.leb_spec (Z.of_nat (S (String.length r))) 0); [lia|].
    change (CStr.first (String y (String.append s b))) with y in Hcmp.
    change (CStr.rest (String y (String.append s b)))
      with (String.append s b) in Hcmp.
    destruct (Ascii.eqb_spec x y) as [->|Hne]; simpl in Hcmp.
    + rewrite Hx0 in Hcmp.
      replace (Z.of_nat (S (String.length r)) - 1)
        with (Z.of_nat (String.length r)) in Hcmp by lia.
      f_equal. apply IH; [lia | done | done].
    + by apply strncmp_sign in Hcmp.
Qed.

(** X2: for two devices whose paths have a separator and fit their arrays,
    [compare_device_paths] answers true exactly when the two paths have
    the same text before their last separator and that text is not
    empty. *)
Theorem match_iff_same_prefix (hdev_a hdev_b : hid_device) (pa pb : string) :
  phys_fits hdev_a → phys_fits hdev_b →
  path_prefix (phys hdev_a) pa → path_prefix (phys hdev_b) pb →
  (compare_device_paths hdev_a hdev_b separator = true
   ↔ pa = pb ∧ pa ≠ EmptyString).
Proof.
  intros Fa Fb Ha Hb. split.
  - unfold compare_device_paths.
    rewrite (prefix_length _ _ Fa Ha), (prefix_length _ _ Fb Hb).
    destruct (Z.eqb_spec (Z.of_nat (String.length pa))
                (Z.of_nat (String.length pb))) as [Hlen|]; [|done].
    simpl negb. cbn [orb].
    destruct (Z.leb_spec (Z.of_nat (String.length pa)) 0) as [|Hpos]; [done|].
    cbn [orb]. rewrite <- Hlen.
    destruct (Z.leb_spec (Z.of_nat (String.length pa)) 0); [lia|].
    intros Hcmp. apply Z.eqb_eq in Hcmp.
    destruct Ha as (ta & Ea & _ & Hnul), Hb as (tb & Eb & _ & _).
    rewrite Ea, Eb in Hcmp. rewrite Ea, has_char_app in Hnul.
    apply orb_false_elim in Hnul as [Hnul _].
    split; [|by destruct pa].
    by apply (strncmp_prefixes_equal pa pb (String separator ta)
                (String separator tb)); [lia | |].
  - intros [<- Hne]. by apply (same_prefix_matches _ _ pa).
Qed.

Lemma match_iff_same_prefix_witness :
  compare_device_paths Demo.keyboard Demo.vendor separator = true
  ↔ "usb-0000:00:14.0-1"%string = "usb-0000:00:14.0-1"%string ∧
    "usb-0000:00:14.0-1"%string ≠ EmptyString.
Proof.
  apply (match_iff_same_prefix Demo.keyboard Demo.vendor).
  - vm_compute. lia.
  - vm_compute. lia.
  - exists "input0"%string. by vm_compute.
  - exists "input2"%string. by vm_compute.
Defined.

(** * More on the descriptor fixup *)

Lemma report_fixup_result (M : Z) (rdesc rdesc1 : list Z) (log : list event) :
  cougar_report_fixup M rdesc = Ok (rdesc1, log) →
  (rdesc1 = rdesc ∧ log = [] ∧
   (rdesc !! 2%nat = Some 0x09 → rdesc !! 3%nat = Some 0x02 →
    ∃ lo hi, rdesc !! 115%nat = Some lo ∧ rdesc !! 116%nat = Some hi ∧
             usage_count lo hi < M)) ∨
  (rdesc1 = clamped M rdesc ∧
   log = [HidInfo "usage count exceeds max: fixing up report descriptor"] ∧
   (117 ≤ length rdesc)%nat ∧
   rdesc !! 2%nat = Some 0x09 ∧ rdesc !! 3%nat = Some 0x02 ∧
   ∃ lo hi, rdesc !! 115%nat = Some lo ∧ rdesc !! 116%nat = Some hi ∧
            M ≤ usage_count lo hi).
Proof.
  unfold cougar_report_fixup, index.
  destruct (rdesc !! 2%nat) as [b2|] eqn:E2; [|done]. cbn [mbind res_bind].
  destruct (Z.eqb_spec b2 9) as [->|]; cbn [negb];
    [|intros [= <- <-]; left; repeat split; congruence].
  destruct (rdesc !! 3%nat) as [b3|] eqn:E3; [|done]. cbn [mbind res_bind].
  destruct (Z.eqb_spec b3 2) as [->|]; cbn [negb];
    [|intros [= <- <-]; left; repeat split; congruence].
  destruct (rdesc !! 115%nat) as [lo|] eqn:E115; [|done]. cbn [mbind res_bind].
  destruct (rdesc !! 116%nat) as [hi|] eqn:E116; [|done]. cbn [mbind res_bind].
  destruct (Z.geb_spec (usage_count lo hi) M) as [Hge|Hlt].
  - intros [= <- <-]. right. split; [done|]. split; [done|].
    split; [apply lookup_lt_Some in E116; lia|]. eauto 10.
  - intros [= <- <-]. left. split; [done|]. split; [done|]. eauto.
Qed.

(** X3: whenever [cougar_report_fixup] returns, the descriptor has the
    length it had, every byte but those at 115 and 116 is what it was, and
    a byte written at 115 or 116 is a value of one byte. *)
Theorem report_fixup_frame (M : Z) (rdesc rdesc1 : list Z) (log : list event) :
  cougar_report_fixup M rdesc = Ok (rdesc1, log) →
  length rdesc1 = length rdesc ∧
  (∀ i : nat, i ≠ 115%nat → i ≠ 116%nat → rdesc1 !! i = rdesc !! i) ∧
  (∀ b, rdesc1 !! 115%nat = Some b → rdesc !! 115%nat = Some b ∨ 0 ≤ b < 256) ∧
  (∀ b, rdesc1 !! 116%nat = Some b → rdesc !! 116%nat = Some b ∨ 0 ≤ b < 256).
Proof.
  intros H. apply report_fixup_result in H
    as [[-> _] | (-> & _ & Hlen & _)];
    [split; [done|]; split; [done|]; split; intros; by left|].
  destruct (clamped_lookup M rdesc Hlen) as (_ & _ & C115 & C116).
  split; [unfold clamped; by rewrite !length_insert|].
  split; [intros i H115 H116; unfold clamped;
          by rewrite !list_lookup_insert_ne by done|].
  split; intros b Hb; right.
  - rewrite C115 in Hb. injection Hb as <-. unfold to_u8.
    apply Z.mod_pos_bound. lia.
  - rewrite C116 in Hb. injection Hb as <-. unfold to_u8.
    apply Z.mod_pos_bound. lia.
Qed.

Lemma report_fixup_frame_witness :
  ∃ rdesc1,
    cougar_report_fixup HID_MAX_USAGES Demo.rdesc
    = Ok (rdesc1,
          [HidInfo "usage count exceeds max: fixing up report descriptor"]) ∧
    length rdesc1 = length Demo.rdesc ∧
    (∀ i : nat, i ≠ 115%nat → i ≠ 116%nat → rdesc1 !! i = Demo.rdesc !! i) ∧
    (∀ b, rdesc1 !! 115%nat = Some b →
          Demo.rdesc !! 115%nat = Some b ∨ 0 ≤ b < 256) ∧
    (∀ b, rdesc1 !! 116%nat = Some b →
          Demo.rdesc !! 116%nat = Some b ∨ 0 ≤ b < 256).
Proof.
  eexists. split; [by vm_compute|].
  apply (report_fixup_frame HID_MAX_USAGES Demo.rdesc _
           [HidInfo "usage count exceeds max: fixing up report descriptor"]).
  by vm_compute.
Defined.

(** X4: for a maximum between 1 and 65536, a descriptor returned by
    [cougar_report_fixup] that carries the signature at bytes 2 and 3 has a
    usage count below the maximum. *)
Theorem report_fixup_below_max (M : Z) (rdesc rdesc1 : list Z)
    (log : list event) :
  1 ≤ M ≤ 65536 →
  cougar_report_fixup M rdesc = Ok (rdesc1, log) →
  rdesc1 !! 2%nat = Some 0x09 → rdesc1 !! 3%nat = Some 0x02 →
  ∃ n, rdesc_usage_count rdesc1 = Ok n ∧ n < M.
Proof.
  intros HM H H2 H3. unfold rdesc_usage_count, index.
  apply report_fixup_result in H
    as [(-> & _ & Hlt) | (-> & _ & Hlen & _)].
  - destruct (Hlt H2 H3) as (lo & hi & -> & -> & Hn). cbn [mbind res_bind].
    eauto.
  - destruct (clamped_lookup M rdesc Hlen) as (_ & _ & -> & ->).
    cbn [mbind res_bind]. rewrite usage_count_clamped by done.
    eexists. split; [done | lia].
Qed.

Lemma report_fixup_below_max_witness :
  rdesc_usage_count Demo.rdesc = Ok 0xffff ∧
  ∃ n, rdesc_usage_count (clamped HID_MAX_USAGES Demo.rdesc) = Ok n ∧
       n < HID_MAX_USAGES.
Proof.
  split; [by vm_compute|].
  apply (report_fixup_below_max HID_MAX_USAGES Demo.rdesc
           (clamped HID_MAX_USAGES Demo.rdesc)
           [HidInfo "usage count exceeds max: fixing up report descriptor"]).
  - unfold HID_MAX_USAGES. lia.
  - by vm_compute.
  - by vm_compute.
  - by vm_compute.
Defined.

(** * More on raw events *)

Lemma open_gate_configured (g6 : Z) (hdev : hid_device) (w : world)
    (i : input_dev) :
  reachable g6 w → gate_open hdev w i →
  cougar_mapping w
  = (COUGAR_KEY_G6, to_u8 (g6_target g6)) :: tail cougar_mapping_init.
Proof.
  intros Hreach (c & g & p & s & _ & _ & _ & _ & Hs & _ & Hen).
  destruct (reachable_inv g6 w Hreach) as [Hg6 [Hc | [_ Hno]]].
  - unfold configured in Hc. rewrite fix_g6_rows_init, Hg6 in Hc.
    by injection Hc as <-.
  - exfalso. apply Hno. by exists p, s.
Qed.

(** X5: in every state reachable after the module is loaded, with the gate
    open, a raw event whose code is one of G1 to G5 or LOCK sends exactly
    one EV_KEY event for F13 to F17 or SCREENLOCK, with the action byte as
    its value, then one sync, and returns 0. *)
Theorem raw_event_mapped_keys (g6 : Z) (hdev : hid_device) (data : list Z)
    (w : world) (i : input_dev) (code key action : Z) :
  reachable g6 w →
  gate_open hdev w i →
  data !! 1%nat = Some code →
  data !! 2%nat = Some action →
  (code, key) ∈ [ (COUGAR_KEY_G1, KEY_F13); (COUGAR_KEY_G2, KEY_F14);
                  (COUGAR_KEY_G3, KEY_F15); (COUGAR_KEY_G4, KEY_F16);
                  (COUGAR_KEY_G5, KEY_F17);
                  (COUGAR_KEY_LOCK, KEY_SCREENLOCK) ] →
  cougar_raw_event hdev data w =
    Ok (0, emit [InputEvent i EV_KEY key action; InputSync i] w).
Proof.
  intros Hreach Hopen Hcode Haction Hrow.
  rewrite (raw_event_open _ _ _ _ Hopen).
  unfold index, COUGAR_FIELD_CODE, COUGAR_FIELD_ACTION.
  rewrite Hcode, Haction. cbn [mbind res_bind].
  rewrite (open_gate_configured g6 hdev w i Hreach Hopen).
  repeat (apply elem_of_cons in Hrow as [[= -> ->] | Hrow]; [reflexivity|]).
  by apply elem_of_nil in Hrow.
Qed.



Lemma both_probed_reachable (g6 : Z) : reachable g6 (Demo.both_probed g6).
Proof.
  unfold reachable.
  apply (rtc_l step _ (Demo.vendor_probed g6));
    [apply (step_probe all_succeed Demo.vendor _ 0); by vm_compute|].
  apply (rtc_l step _ (Demo.both_probed g6)); [|apply rtc_refl].
  apply (step_probe all_succeed Demo.keyboard _ 0). by vm_compute.
Qed.

Lemma raw_event_mapped_keys_witness :
  cougar_raw_event Demo.vendor [1; 0x83; 1] (Demo.both_probed 1)
  = Ok (0, emit [InputEvent 7%positive EV_KEY KEY_F13 1; InputSync 7%positive]
             (Demo.both_probed 1)).
Proof.
  apply (raw_event_mapped_keys 1 Demo.vendor [1; 0x83; 1] (Demo.both_probed 1)
           7%positive 0x83 KEY_F13 1).
  - apply both_probed_reachable.
  - apply both_probed_gate_open.
  - reflexivity.
  - reflexivity.
  - apply list_elem_of_here.
Defined.



(** * More on the key map *)

Lemma fix_g6_rows_cons (g6 k v : Z) (r : list (Z * Z)) :
  fix_g6_rows g6 ((k, v) :: r) =
  if k =? 0 then Ok None
  else if k =? COUGAR_KEY_G6 then
    Ok (Some ((k, to_u8 (if g6 =? 0 then KEY_F18 else KEY_SPACE)) :: r))
  else o ← fix_g6_rows g6 r; Ok (option_map (cons (k, v)) o).
Proof. reflexivity. Qed.

Lemma fix_g6_rows_frame (g6 : Z) (rows rows' : list (Z * Z)) :
  fix_g6_rows g6 rows = Ok (Some rows') →
  rows'.*1 = rows.*1 ∧
  (∀ code, code ≠ COUGAR_KEY_G6 →
     lookup_mapping rows' code = lookup_mapping rows code) ∧
  fix_g6_rows g6 rows' = Ok (Some rows').
Proof.
  revert rows'. induction rows as [|[k v] r IH]; intros rows'; [done|].
  rewrite fix_g6_rows_cons.
  destruct (Z.eqb_spec k 0) as [->|Hk0]; [done|].
  destruct (Z.eqb_spec k COUGAR_KEY_G6) as [->|Hk].
  - intros [= <-]. split; [done|]. split.
    + intros code Hcode. rewrite !lookup_mapping_cons.
      change (COUGAR_KEY_G6 =? 0) with false. cbv iota.
      by destruct (Z.eqb_spec code COUGAR_KEY_G6).
    + rewrite fix_g6_rows_cons. by rewrite Z.eqb_refl.
  - destruct (fix_g6_rows g6 r) as [[r'|]|] eqn:Hr; [|done..].
    cbn [mbind res_bind option_map]. intros [= <-].
    destruct (IH r' eq_refl) as (Hfst & Hlook & Hidem).
    split; [by rewrite !fmap_cons, Hfst|]. split.
    + intros code Hcode. rewrite !lookup_mapping_cons.
      destruct (k =? 0); [done|]. destruct (code =? k); [done|].
      by apply Hlook.
    + rewrite fix_g6_rows_cons.
      destruct (Z.eqb_spec k 0); [done|].
      destruct (Z.eqb_spec k COUGAR_KEY_G6); [done|].
      by rewrite Hidem.
Qed.

Lemma fix_g6_rows_terminated (g6 : Z) (rows : list (Z * Z)) :
  terminated rows = true →
  ∃ o, fix_g6_rows g6 rows = Ok o ∧
       match o with Some rows' => terminated rows' = true | None => True end.
Proof.
  induction rows as [|[k v] r IH]; intros Hterm; [done|].
  rewrite fix_g6_rows_cons. unfold terminated in *. cbn [existsb fst] in *.
  destruct (Z.eqb_spec k 0) as [->|Hk0]; [by exists None|].
  cbn [orb] in Hterm.
  destruct (Z.eqb_spec k COUGAR_KEY_G6) as [->|Hk].
  - eexists. split; [done|]. by cbn [existsb fst orb].
  - destruct (IH Hterm) as (o & -> & Ho). cbn [mbind res_bind].
    eexists. split; [done|]. destruct o as [r'|]; [|done].
    cbn [option_map existsb fst].
    destruct (Z.eqb_spec k 0); [done|]. done.
Qed.

(** X8: on a table that ends with a terminating row,
    [cougar_fix_g6_mapping] returns; it changes nothing but the table and
    the log, keeps every code and the terminating row, leaves the key of
    every code other than G6 as it was, and running it again changes
    nothing more. *)
Theorem fix_g6_mapping_frame (w : world) :
  terminated (cougar_mapping w) = true →
  ∃ w1 log,
    cougar_fix_g6_mapping w = Ok w1 ∧
    w1 = emit log (set_mapping (cougar_mapping w1) w) ∧
    terminated (cougar_mapping w1) = true ∧
    (cougar_mapping w1).*1 = (cougar_mapping w).*1 ∧
    (∀ code, code ≠ COUGAR_KEY_G6 →
       lookup_mapping (cougar_mapping w1) code
       = lookup_mapping (cougar_mapping w) code) ∧
    (∀ w2, cougar_fix_g6_mapping w1 = Ok w2 →
       cougar_mapping w2 = cougar_mapping w1).
Proof.
  intros Hterm. unfold cougar_fix_g6_mapping.
  destruct (fix_g6_rows_terminated (cougar_g6_is_space w) _ Hterm)
    as (o & Ho & Hterm').
  rewrite Ho. cbn [mbind res_bind]. destruct o as [rows'|].
  - destruct (fix_g6_rows_frame _ _ _ Ho) as (Hfst & Hlook & Hidem).
    eexists _, _. split; [done|]. split; [done|]. split; [done|].
    split; [done|]. split; [done|].
    intros w2. cbn [cougar_g6_is_space cougar_mapping emit set_mapping].
    rewrite Hidem. cbn [mbind res_bind]. by intros [= <-].
  - eexists _, _. split; [done|]. split; [by destruct w|].
    split; [done|]. split; [done|]. split; [done|].
    intros w2. cbn [cougar_g6_is_space cougar_mapping emit].
    rewrite Ho. cbn [mbind res_bind]. by intros [= <-].
Qed.

Lemma fix_g6_mapping_frame_witness :
  ∃ w1 log,
    cougar_fix_g6_mapping (module_loaded 0) = Ok w1 ∧
    w1 = emit log (set_mapping (cougar_mapping w1) (module_loaded 0)) ∧
    terminated (cougar_mapping w1) = true ∧
    (cougar_mapping w1).*1 = (cougar_mapping (module_loaded 0)).*1 ∧
    (∀ code, code ≠ COUGAR_KEY_G6 →
       lookup_mapping (cougar_mapping w1) code
       = lookup_mapping (cougar_mapping (module_loaded 0)) code) ∧
    (∀ w2, cougar_fix_g6_mapping w1 = Ok w2 →
       cougar_mapping w2 = cougar_mapping w1).
Proof. apply (fix_g6_mapping_frame (module_loaded 0)). reflexivity. Defined.

Lemma reachable_rows (g6 : Z) (w : world) :
  reachable g6 w →
  cougar_mapping w = cougar_mapping_init ∨
  cougar_mapping w
  = (COUGAR_KEY_G6, to_u8 (g6_target (cougar_g6_is_space w)))
      :: tail cougar_mapping_init.
Proof.
  intros Hreach.
  destruct (reachable_inv g6 w Hreach) as [_ [Hc | [Hinit _]]]; [|by left].
  right. unfold configured in Hc. rewrite fix_g6_rows_init in Hc.
  by injection Hc as <-.
Qed.

Lemma reachable_terminated (g6 : Z) (w : world) :
  reachable g6 w → terminated (cougar_mapping w) = true.
Proof. intros Hreach. by destruct (reachable_rows g6 w Hreach) as [-> | ->]. Qed.

(** X9: in every state reachable after the module is loaded the table ends
    with a terminating row and holds the codes of the initial table in
    their order, so the loop of [cougar_raw_event] over it never runs out
    of the table. *)
Theorem reachable_table_terminated (g6 : Z) (w : world) :
  reachable g6 w →
  terminated (cougar_mapping w) = true ∧
  (cougar_mapping w).*1 = cougar_mapping_init.*1 ∧
  ∀ code, is_ok (lookup_mapping (cougar_mapping w) code) = true.
Proof.
  intros Hreach.
  pose proof (reachable_rows g6 w Hreach) as Hrows.
  assert (Hterm : terminated (cougar_mapping w) = true)
    by (by destruct Hrows as [-> | ->]).
  split; [done|]. split; [by destruct Hrows as [-> | ->]|].
  intros code. by apply lookup_mapping_terminated.
Qed.

Lemma reachable_table_terminated_witness :
  terminated (cougar_mapping (Demo.vendor_probed 0)) = true ∧
  (cougar_mapping (Demo.vendor_probed 0)).*1 = cougar_mapping_init.*1 ∧
  ∀ code,
    is_ok (lookup_mapping (cougar_mapping (Demo.vendor_probed 0)) code) = true.
Proof.
  apply (reachable_table_terminated 0 (Demo.vendor_probed 0)).
  unfold reachable. eapply rtc_r; [apply rtc_refl|].
  apply (step_probe all_succeed Demo.vendor _ 0). by vm_compute.
Defined.

(** * Binding the shared data: all or nothing *)

Lemma emit_nil (w : world) : emit [] w = w.
Proof. destruct w. unfold emit. simpl. by rewrite app_nil_r. Qed.

Lemma emit_emit (e1 e2 : list event) (w : world) :
  emit e2 (emit e1 w) = emit (e1 ++ e2) w.
Proof. unfold emit. simpl. by rewrite app_assoc. Qed.

Lemma world_ext (w w' : world) :
  cougar_mapping w = cougar_mapping w' →
  cougar_g6_is_space w = cougar_g6_is_space w' →
  cougar_udev_list w = cougar_udev_list w' →
  shared_mem w = shared_mem w' →
  cougar_mem w = cougar_mem w' →
  drvdata w = drvdata w' →
  devres w = devres w' →
  trace w = trace w' →
  w = w'.
Proof. destruct w, w'. simpl. by intros -> -> -> -> -> -> -> ->. Qed.

Ltac world_ext :=
  apply world_ext;
  cbn [cougar_mapping cougar_g6_is_space cougar_udev_list shared_mem
       cougar_mem drvdata devres trace set_mapping set_udev_list
       set_shared_mem set_cougar_mem set_drvdata set_devres emit put_shared
       put_cougar add_devres];
  try reflexivity.

Ltac proj :=
  cbn [cougar_mapping cougar_g6_is_space cougar_udev_list shared_mem
       cougar_mem drvdata devres trace set_mapping set_udev_list
       set_shared_mem set_cougar_mem set_drvdata set_devres emit put_shared
       put_cougar add_devres].

Ltac proj_in H :=
  cbn [cougar_mapping cougar_g6_is_space cougar_udev_list shared_mem
       cougar_mem drvdata devres trace set_mapping set_udev_list
       set_shared_mem set_cougar_mem set_drvdata set_devres emit put_shared
       put_cougar add_devres] in H.

Ltac maps :=
  apply map_eq; intros ?;
  repeat (rewrite ?lookup_delete, ?lookup_insert; case_decide; simplify_eq);
  try done; try congruence.

Lemma find_shared_registry (hdev : hid_device) (w : world) :
  registry_ok w →
  (∃ p s, find_shared hdev (shared_mem w) (cougar_udev_list w) = Ok (Some p) ∧
          p ∈ cougar_udev_list w ∧ shared_mem w !! p = Some s ∧ 1 ≤ kref s) ∨
  find_shared hdev (shared_mem w) (cougar_udev_list w) = Ok None.
Proof.
  intros Hok.
  destruct (find_shared_total hdev (shared_mem w) (cougar_udev_list w))
    as [(p & s & Hf & Hp & Hs) | Hf]; [| |by right].
  - intros q Hq. destruct (Hok q Hq) as (s & -> & _). eauto.
  - left. exists p, s. destruct (Hok p Hp) as (s' & Hs' & Hk).
    rewrite Hs in Hs'. injection Hs' as <-. done.
Qed.

Lemma bind_cases (o : outcomes) (hdev : hid_device)
    (c : ptr) (g : cougar) (w : world) :
  registry_ok w →
  cougar_mem w !! c = Some g →
  ∃ error w',
  cougar_bind_shared_data o hdev c w = Ok (error, w') ∧
  ((error = - ENOMEM ∧ kzalloc_ok o = false ∧ w' = w) ∨
   (error = devm_add_action_ret o ∧ error ≠ 0 ∧
    w' = put_cougar c (with_shared None g) w) ∨
   (error = 0 ∧ ∃ p s,
      find_shared hdev (shared_mem w) (cougar_udev_list w) = Ok (Some p) ∧
      shared_mem w !! p = Some s ∧ 1 ≤ kref s ∧
      w' = add_devres (hid hdev) (DevresRemoveSharedData c)
             (put_cougar c (with_shared (Some p) g)
                (put_shared p (with_kref (kref s + 1) s) w))) ∨
   (error = 0 ∧
    find_shared hdev (shared_mem w) (cougar_udev_list w) = Ok None ∧
    w' = add_devres (hid hdev) (DevresRemoveSharedData c)
           (put_cougar c (with_shared (Some (fresh (dom (shared_mem w)))) g)
              (set_udev_list
                 (cougar_udev_list w ++ [fresh (dom (shared_mem w))])
                 (put_shared (fresh (dom (shared_mem w)))
                    {| kref := 1; enabled := false; dev := hdev;
                       input := None |} w))))).
Proof.
  intros Hok Hc.
  destruct (find_shared_registry hdev w Hok)
    as [(p & s & Hf & Hp & Hs & Hk) | Hf].
  - unfold cougar_bind_shared_data, cougar_get_shared_data, kref_get.
    rewrite Hf. cbn [mbind res_bind]. rewrite Hs.
    cbn [deref mbind res_bind].
    change (cougar_mem (put_shared p (with_kref (kref s + 1) s) w))
      with (cougar_mem w).
    rewrite Hc. cbn [deref mbind res_bind].
    destruct (Z.eqb_spec (devm_add_action_ret o) 0) as [|Hact].
    { eexists _, _. split; [reflexivity|]. right. right. left.
      split; [done|]. by exists p, s. }
    set (W := put_cougar c _ _).
    assert (HcW : cougar_mem W !! c = Some (with_shared (Some p) g))
      by (subst W; simpl; apply lookup_insert_eq).
    assert (HsW : shared_mem W !! p = Some (with_kref (kref s + 1) s))
      by (subst W; simpl; apply lookup_insert_eq).
    rewrite (remove_shared_data_held c W _ p _ HcW eq_refl HsW).
    cbn [mbind res_bind]. eexists _, _. split; [reflexivity|]. right. left.
    split; [done|]. split; [done|].
    cbn [kref with_kref].
    replace (kref s + 1 - 1) with (kref s) by lia.
    destruct (Z.eqb_spec (kref s) 0); [lia|].
    subst W. world_ext.
    + rewrite insert_insert_eq, with_kref_with_kref, with_kref_id.
      by apply insert_id.
    + by rewrite !insert_insert_eq.
  - unfold cougar_bind_shared_data, cougar_get_shared_data.
    rewrite Hf. cbn [mbind res_bind].
    destruct (kzalloc_ok o) eqn:Hkz;
      [|eexists _, _; split; [reflexivity|]; by left].
    set (p := fresh (dom (shared_mem w))) in *.
    set (W0 := set_udev_list _ _).
    change (cougar_mem W0) with (cougar_mem w).
    rewrite Hc. cbn [deref mbind res_bind].
    destruct (Z.eqb_spec (devm_add_action_ret o) 0) as [|Hact].
    { eexists _, _. split; [reflexivity|]. right. right. right. done. }
    set (W := put_cougar c _ _).
    assert (HcW : cougar_mem W !! c = Some (with_shared (Some p) g))
      by (subst W; simpl; apply lookup_insert_eq).
    assert (HsW : shared_mem W !! p
                  = Some {| kref := 1; enabled := false; dev := hdev;
                            input := None |})
      by (subst W W0; simpl; apply lookup_insert_eq).
    rewrite (remove_shared_data_held c W _ p _ HcW eq_refl HsW).
    cbn [mbind res_bind]. eexists _, _. split; [reflexivity|]. right. left.
    split; [done|]. split; [done|].
    cbn [kref]. change (1 - 1 =? 0) with true. cbv iota.
    assert (Hfresh : shared_mem w !! p = None)
      by apply not_elem_of_dom, is_fresh.
    pose proof (fresh_not_in_registry w Hok) as Hnl. fold p in Hnl.
    subst W W0. world_ext.
    + by apply list_del_app_fresh.
    + rewrite delete_insert_eq. by apply delete_id.
    + by rewrite !insert_insert_eq.
Qed.

(** * The probe, case by case *)

Lemma release_mem_node (h : nat) (c : ptr) (w : world) :
  devres w !! h = Some [DevresMem c] →
  devres_release_all h w
  = Ok (set_drvdata (delete h (drvdata w))
          (set_devres (delete h (devres w))
             (set_cougar_mem (delete c (cougar_mem w)) w))).
Proof. intros H. unfold devres_release_all. by rewrite H. Qed.

Lemma release_bound_nodes (h : nat) (c : ptr) (g : cougar) (p : ptr)
    (s : cougar_shared) (w : world) :
  devres w !! h = Some (bound_nodes c) →
  cougar_mem w !! c = Some g → shared g = Some p →
  shared_mem w !! p = Some s →
  devres_release_all h w
  = Ok (set_drvdata (delete h (drvdata w))
          (set_devres (delete h (devres w))
             (set_cougar_mem (delete c (cougar_mem w))
                (if kref s - 1 =? 0 then
                   set_shared_mem (delete p (shared_mem w))
                     (set_udev_list (list_del p (cougar_udev_list w)) w)
                 else put_shared p (with_kref (kref s - 1) s) w)))).
Proof.
  intros Hr Hc Hg Hs. unfold devres_release_all. rewrite Hr.
  cbn [default from_option id bound_nodes release_nodes].
  rewrite (remove_shared_data_held c w g p s Hc Hg Hs).
  cbn [mbind res_bind release_nodes]. f_equal.
  destruct (kref s - 1 =? 0); world_ext; maps.
Qed.

Lemma probe_tail (o : outcomes) (hdev : hid_device) (c p : ptr) (g : cougar)
    (s : cougar_shared) (W3 : world) :
  cougar_mem W3 !! c = Some g → shared g = Some p →
  shared_mem W3 !! p = Some s →
  terminated (cougar_mapping W3) = true →
  ∃ e w',
  (if collection_usage hdev =? HID_GD_KEYBOARD
   then
    cougar_fix_g6_mapping W3
    ≫= λ w0 : world,
         match first_registered (inputs hdev) with
         | Some i =>
             deref (cougar_mem w0 !! c)
             ≫= λ g : cougar,
                  deref (shared g)
                  ≫= λ p : ptr,
                       deref (shared_mem w0 !! p)
                       ≫= λ s : cougar_shared,
                            deref
                              (shared_mem
                                 (put_shared p (with_input (Some i) s) w0)
                               !! p)
                            ≫= λ s0 : cougar_shared,
                                 Ok
                                   (0,
                                    put_shared p
                                      (with_enabled true s0)
                                      (put_shared p
                                         (with_input (Some i) s) w0))
         | None => Ok (0, w0)
         end
   else
    if collection_usage hdev =? COUGAR_VENDOR_USAGE
    then
     if negb (hid_hw_open_ret o =? 0)
     then
      Ok
        (hid_hw_open_ret o,
         set_drvdata
           (delete (hid hdev) (drvdata (emit [HwStop (hid hdev)] W3)))
           (emit [HwStop (hid hdev)] W3))
     else Ok (0, emit [HwOpen (hid hdev)] W3)
    else Ok (0, W3)) = Ok (e, w') ∧
  ((e ≠ 0 ∧
   w' = set_drvdata (delete (hid hdev) (drvdata W3))
          (emit [HwStop (hid hdev)] W3)) ∨
  (e = 0 ∧ ∃ evs m' s',
     w' = emit evs (put_shared p s' (set_mapping m' W3)) ∧
     (if collection_usage hdev =? HID_GD_KEYBOARD
      then ∃ msg, evs = [HidInfo msg] ∨ evs = [HidWarn msg]
      else if collection_usage hdev =? COUGAR_VENDOR_USAGE
           then evs = [HwOpen (hid hdev)] else evs = []) ∧
     (if collection_usage hdev =? HID_GD_KEYBOARD then
        ∃ rows, fix_g6_rows (cougar_g6_is_space W3) (cougar_mapping W3)
                = Ok rows ∧ m' = default (cougar_mapping W3) rows
      else m' = cougar_mapping W3) ∧
     kref s' = kref s ∧ dev s' = dev s ∧
     match keyboard_input hdev with
     | Some i => enabled s' = true ∧ input s' = Some i
     | None => enabled s' = enabled s ∧ input s' = input s
     end)).
Proof.
  intros Hc Hg Hs Hterm.
  assert (Hsame : ∀ evs, emit evs W3
                  = emit evs (put_shared p s (set_mapping (cougar_mapping W3) W3))).
  { intros evs. world_ext. symmetry. by apply insert_id. }
  unfold keyboard_input.
  destruct (Z.eqb_spec (collection_usage hdev) HID_GD_KEYBOARD) as [Hkbd|Hkbd].
  - unfold cougar_fix_g6_mapping.
    destruct (fix_g6_rows_terminated (cougar_g6_is_space W3) _ Hterm)
      as (rows & Hrows & _). rewrite Hrows.
    cbn [mbind res_bind].
    set (W4 := match rows with Some _ => _ | None => _ end).
    assert (HW4 : ∃ evs, W4 = Ok (emit evs
                   (set_mapping (default (cougar_mapping W3) rows) W3)) ∧
                   ∃ msg, evs = [HidInfo msg] ∨ evs = [HidWarn msg]).
    { subst W4. destruct rows as [rows|].
      - eexists. split; [reflexivity|]. eauto.
      - exists [HidWarn "no mapping defined for G6/spacebar"].
        split; [|eauto]. apply f_equal. world_ext. }
    destruct HW4 as (evs & HW4 & Hevs). clearbody W4. subst W4.
    cbn [mbind res_bind].
    destruct (first_registered (inputs hdev)) as [i|] eqn:Hin.
    + cbn [cougar_mem emit set_mapping shared_mem]. rewrite Hc.
      cbn [deref mbind res_bind]. rewrite Hg. cbn [deref mbind res_bind].
      rewrite Hs. cbn [deref mbind res_bind shared_mem put_shared
                       set_shared_mem].
      rewrite lookup_insert_eq. cbn [deref mbind res_bind].
      eexists _, _. split; [reflexivity|]. right. split; [done|].
      exists evs, (default (cougar_mapping W3) rows),
        (with_enabled true (with_input (Some i) s)).
      split; [world_ext; by rewrite insert_insert_eq|].
      split; [done|]. split; [by exists rows|]. done.
    + eexists _, _. split; [reflexivity|]. right. split; [done|].
      exists evs, (default (cougar_mapping W3) rows), s.
      split; [world_ext; symmetry; by apply insert_id|].
      split; [done|]. split; [by exists rows|]. done.
  - destruct (Z.eqb_spec (collection_usage hdev) COUGAR_VENDOR_USAGE) as [Hv|Hv].
    + destruct (Z.eqb_spec (hid_hw_open_ret o) 0) as [Ho|Ho]; cbn [negb].
      * eexists _, _. split; [reflexivity|]. right. split; [done|].
        exists [HwOpen (hid hdev)], (cougar_mapping W3), s. by rewrite <- Hsame.
      * eexists _, _. split; [reflexivity|]. by left.
    + eexists _, _. split; [reflexivity|]. right. split; [done|].
      exists [], (cougar_mapping W3), s. by rewrite <- Hsame, emit_nil.
Qed.

Lemma really_probe_shape (o : outcomes) (hdev : hid_device) (w : world) :
  registry_ok w →
  drvdata w !! hid hdev = None → devres w !! hid hdev = None →
  terminated (cougar_mapping w) = true →
  ∃ e w',
  really_probe o hdev w = Ok (e, w') ∧
  ((e ≠ 0 ∧ ∃ evs, w' = emit evs w ∧ failure_events hdev evs) ∨
   (e = 0 ∧ ∃ c p, probed hdev w w' c p)).
Proof.
  intros Hok Hdd Hdr Hterm. unfold really_probe, cougar_probe.
  destruct (devm_kzalloc_ok o); cbn [negb].
  2:{ cbn [mbind res_bind]. change (- ENOMEM =? 0) with false. cbv iota.
      unfold devres_release_all. rewrite Hdr.
      cbn [default from_option release_nodes mbind res_bind id].
      eexists _, _. split; [reflexivity|]. left. split; [done|]. exists []. split; [|by left].
      world_ext; [maps | maps | by rewrite app_nil_r]. }
  set (c := fresh (dom (cougar_mem w))).
  assert (Hc : cougar_mem w !! c = None) by apply not_elem_of_dom, is_fresh.
  set (A2 := set_drvdata (<[hid hdev := c]> _) _).
  assert (HA2c : cougar_mem A2
                 = <[c := {| special_intf := false; shared := None |}]>
                     (cougar_mem w)) by done.
  assert (HA2r : devres A2 = <[hid hdev := [DevresMem c]]> (devres w)).
  { subst A2. cbn [devres set_drvdata add_devres set_devres put_cougar
                   set_cougar_mem]. by rewrite Hdr. }
  assert (HA2d : drvdata A2 = <[hid hdev := c]> (drvdata w)) by done.
  destruct (Z.eqb_spec (hid_parse_ret o) 0) as [_|Hparse]; cbn [negb].
  2:{ cbn [mbind res_bind].
      destruct (Z.eqb_spec (hid_parse_ret o) 0) as [|_]; [done|].
      unfold devres_release_all.
      cbn [devres set_drvdata emit]. rewrite HA2r, lookup_insert_eq.
      cbn [default from_option release_nodes mbind res_bind id].
      eexists _, _. split; [reflexivity|]. left. split; [done|].
      exists [HidErr "parse failed"]. split; [|right; by left].
      clear HA2c HA2r HA2d. subst A2. world_ext; rewrite ?Hdr; maps. }
  rewrite HA2c, lookup_insert_eq. cbn [deref mbind res_bind].
  set (g0 := {| special_intf := collection_usage hdev =? COUGAR_VENDOR_USAGE;
                shared := None |}).
  set (W1 := if collection_usage hdev =? COUGAR_VENDOR_USAGE then _ else A2).
  assert (HW1 : W1 = set_drvdata (<[hid hdev := c]> (drvdata w))
                       (set_devres (<[hid hdev := [DevresMem c]]> (devres w))
                          (put_cougar c g0 w))).
  { clear HA2c HA2r HA2d. subst W1 g0 A2.
    destruct (collection_usage hdev =? COUGAR_VENDOR_USAGE);
      world_ext; rewrite ?Hdr; try done; maps. }
  clearbody W1. clear A2 HA2c HA2r HA2d. subst W1.
  set (W1 := set_drvdata (<[hid hdev := c]> (drvdata w)) _).
  destruct (Z.eqb_spec (hid_hw_start_ret o) 0) as [_|Hstart]; cbn [negb].
  2:{ cbn [mbind res_bind].
      destruct (Z.eqb_spec (hid_hw_start_ret o) 0) as [|_]; [done|].
      rewrite (release_mem_node _ c) by (subst W1; simpl; apply lookup_insert_eq).
      cbn [mbind res_bind].
      eexists _, _. split; [reflexivity|]. left. split; [done|].
      exists [HidErr "hw start failed"]. split; [|right; right; by left]. subst W1. world_ext; maps. }
  set (mask := if collection_usage hdev =? COUGAR_VENDOR_USAGE
               then HID_CONNECT_HIDRAW else HID_CONNECT_DEFAULT).
  set (W2 := emit _ W1).
  destruct (bind_cases o hdev c g0 W2) as (e1 & W3 & -> & Hbind);
    [exact Hok | subst W2 W1; simpl; apply lookup_insert_eq |].
  cbn [mbind res_bind].
  change (shared_mem W2) with (shared_mem w) in Hbind.
  change (cougar_udev_list W2) with (cougar_udev_list w) in Hbind.
  assert (Hevs : ∀ W, emit [HwStop (hid hdev)] (emit [HwStart (hid hdev) mask] W)
                 = emit [HwStart (hid hdev) mask; HwStop (hid hdev)] W)
    by (intros; apply emit_emit).
  destruct Hbind as [(-> & _ & ->) | [(-> & Hne & ->) |
    [(-> & p & s & Hf & Hs & Hk & ->) | (-> & Hf & ->)]]].
  - change (negb (- ENOMEM =? 0)) with true. cbv iota. cbn [mbind res_bind].
    change (- ENOMEM =? 0) with false. cbv iota.
    rewrite (release_mem_node _ c) by (simpl; apply lookup_insert_eq).
    cbn [mbind res_bind]. eexists _, _. split; [reflexivity|]. left. split; [done|].
    exists [HwStart (hid hdev) mask; HwStop (hid hdev)].
    split; [|right; right; right; by exists mask].
    subst W2 W1. world_ext; try maps. by rewrite <- app_assoc.
  - destruct (Z.eqb_spec (devm_add_action_ret o) 0) as [|_]; [done|].
    cbn [negb mbind res_bind].
    destruct (Z.eqb_spec (devm_add_action_ret o) 0) as [|_]; [done|].
    rewrite (release_mem_node _ c) by (simpl; apply lookup_insert_eq).
    cbn [mbind res_bind]. eexists _, _. split; [reflexivity|]. left. split; [done|].
    exists [HwStart (hid hdev) mask; HwStop (hid hdev)].
    split; [|right; right; right; by exists mask].
    subst W2 W1. world_ext; try maps. by rewrite <- app_assoc.
  - change (negb (0 =? 0)) with false. cbv iota.
    set (W3 := add_devres _ _ _).
    destruct (probe_tail o hdev c p (with_shared (Some p) g0)
                (with_kref (kref s + 1) s) W3) as (e2 & W4 & -> & Htail);
      [subst W3; simpl; apply lookup_insert_eq | done
      |subst W3; simpl; apply lookup_insert_eq | done |].
    cbn [mbind res_bind].
    destruct Htail
      as [(He2 & ->) | (-> & evs & m' & s' & -> & Hev & Hm & Hkr & Hdv & Hen)].
    + destruct (Z.eqb_spec e2 0) as [|_]; [done|].
      rewrite (release_bound_nodes _ c (with_shared (Some p) g0) p
                 (with_kref (kref s + 1) s));
        [|subst W3 W2 W1; proj; by rewrite !lookup_insert_eq
         |subst W3; simpl; apply lookup_insert_eq | done
         |subst W3; simpl; apply lookup_insert_eq].
      cbn [mbind res_bind kref with_kref].
      replace (kref s + 1 - 1) with (kref s) by lia.
      destruct (Z.eqb_spec (kref s) 0); [lia|].
      eexists _, _. split; [reflexivity|]. left. split; [done|].
      exists [HwStart (hid hdev) mask; HwStop (hid hdev)].
      split; [|right; right; right; by exists mask].
      subst W3 W2 W1. world_ext; try maps.
      * by rewrite with_kref_with_kref, with_kref_id.
      * by rewrite <- app_assoc.
    + change (0 =? 0) with true. cbv iota.
      eexists _, _. split; [reflexivity|]. right. split; [done|]. exists c, p.
      unfold probed. rewrite Hs. subst W3 W2 W1. proj. proj_in Hm.
      rewrite lookup_insert_eq. cbn [default from_option id].
      split; [done|]. split; [by rewrite insert_insert_eq|].
      split; [done|]. split; [by rewrite insert_insert_eq|].
      split; [done|]. split; [done|]. split.
      { exists (HwStart (hid hdev) mask :: evs).
        split; [by rewrite <- app_assoc|]. by exists evs. }
      exists s'. split; [by rewrite insert_insert_eq|]. done.
  - change (negb (0 =? 0)) with false. cbv iota.
    set (p := fresh (dom (shared_mem w))).
    assert (Hp : shared_mem w !! p = None) by apply not_elem_of_dom, is_fresh.
    pose proof (fresh_not_in_registry w Hok) as Hnl. fold p in Hnl.
    set (s := {| kref := 1; enabled := false; dev := hdev; input := None |}).
    set (W3 := add_devres _ _ _).
    destruct (probe_tail o hdev c p (with_shared (Some p) g0) s W3)
      as (e2 & W4 & -> & Htail);
      [subst W3; simpl; apply lookup_insert_eq | done
      |subst W3; simpl; apply lookup_insert_eq | done |].
    cbn [mbind res_bind].
    destruct Htail
      as [(He2 & ->) | (-> & evs & m' & s' & -> & Hev & Hm & Hkr & Hdv & Hen)].
    + destruct (Z.eqb_spec e2 0) as [|_]; [done|].
      rewrite (release_bound_nodes _ c (with_shared (Some p) g0) p s);
        [|subst W3 W2 W1; proj; by rewrite !lookup_insert_eq
         |subst W3; simpl; apply lookup_insert_eq | done
         |subst W3; simpl; apply lookup_insert_eq].
      cbn [mbind res_bind kref s]. change (1 - 1 =? 0) with true. cbv iota.
      eexists _, _. split; [reflexivity|]. left. split; [done|].
      exists [HwStart (hid hdev) mask; HwStop (hid hdev)].
      split; [|right; right; right; by exists mask].
      subst W3 W2 W1. world_ext; try maps.
      * by apply list_del_app_fresh.
      * by rewrite <- app_assoc.
    + change (0 =? 0) with true. cbv iota.
      eexists _, _. split; [reflexivity|]. right. split; [done|]. exists c, p.
      unfold probed. fold p. rewrite Hp. subst W3 W2 W1. proj. proj_in Hm.
      rewrite lookup_insert_eq. cbn [default from_option id].
      split; [done|]. split; [by rewrite insert_insert_eq|].
      split; [done|]. split; [by rewrite insert_insert_eq|].
      split; [done|]. split; [done|]. split.
      { exists (HwStart (hid hdev) mask :: evs).
        split; [by rewrite <- app_assoc|]. by exists evs. }
      exists s'. split; [by rewrite insert_insert_eq|]. done.
Qed.

(** * Counting the holders of a shared object *)

Lemma holders_insert (p c : ptr) (g : cougar) (m : gmap ptr cougar) :
  m !! c = None →
  holders p (<[c := g]> m)
  = if decide (shared g = Some p) then S (holders p m) else holders p m.
Proof.
  intros Hc. unfold holders. case_decide as Hg.
  - rewrite map_filter_insert_True by done.
    rewrite map_size_insert_None; [done|].
    by rewrite map_lookup_filter_None; left.
  - rewrite map_filter_insert_False by done. by rewrite delete_id.
Qed.

Lemma holders_delete (p c : ptr) (g : cougar) (m : gmap ptr cougar) :
  m !! c = Some g →
  holders p m
  = if decide (shared g = Some p) then S (holders p (delete c m))
    else holders p (delete c m).
Proof.
  intros Hc. rewrite <- (insert_delete_id m c g) at 1 by done.
  apply holders_insert. apply lookup_delete_eq.
Qed.

Lemma holders_two (p c1 c2 : ptr) (g1 g2 : cougar) (m : gmap ptr cougar) :
  c1 ≠ c2 → m !! c1 = Some g1 → m !! c2 = Some g2 →
  shared g1 = Some p → shared g2 = Some p →
  (2 ≤ holders p m)%nat.
Proof.
  intros Hne H1 H2 Hg1 Hg2.
  rewrite (holders_delete p c1 g1 m H1). rewrite decide_True by done.
  rewrite (holders_delete p c2 g2 (delete c1 m)).
  - rewrite decide_True by done. lia.
  - by rewrite lookup_delete_ne.
Qed.

Lemma holders_none (p : ptr) (m : gmap ptr cougar) :
  (∀ c g, m !! c = Some g → shared g ≠ Some p) → holders p m = 0%nat.
Proof.
  intros H. unfold holders. apply map_size_empty_iff, map_empty. intros c.
  apply map_lookup_filter_None. right. intros g Hc. by apply (H c).
Qed.

(** * Releasing the driver, case by case *)

Lemma release_bound (hdev : hid_device) (c : ptr) (g : cougar) (p : ptr)
    (s : cougar_shared) (w : world) :
  drvdata w !! hid hdev = Some c → cougar_mem w !! c = Some g →
  shared g = Some p → shared_mem w !! p = Some s →
  devres w !! hid hdev = Some (bound_nodes c) →
  device_release_driver hdev w
  = Ok (emit ((if special_intf g then [HwClose (hid hdev)] else [])
              ++ [HwStop (hid hdev)])
          (set_drvdata (delete (hid hdev) (drvdata w))
             (set_devres (delete (hid hdev) (devres w))
                (set_cougar_mem (delete c (cougar_mem w))
                   (if kref s - 1 =? 0 then
                      set_shared_mem (delete p (shared_mem w))
                        (set_udev_list (list_del p (cougar_udev_list w)) w)
                    else
                      put_shared p
                        (with_kref (kref s - 1) (with_enabled false s)) w))))).
Proof.
  intros Hd Hc Hg Hs Hr. unfold device_release_driver, cougar_remove.
  rewrite Hd, Hc. cbn [deref mbind res_bind]. rewrite Hg, Hs.
  cbn [deref mbind res_bind].
  set (W := emit [HwStop (hid hdev)] _).
  rewrite (release_bound_nodes _ c g p (with_enabled false s) W);
    [|subst W; by destruct (special_intf g)
     |subst W; by destruct (special_intf g) | done
     |subst W; destruct (special_intf g); simpl; apply lookup_insert_eq].
  f_equal. cbn [kref with_enabled]. subst W.
  destruct (special_intf g), (kref s - 1 =? 0); world_ext; try maps;
    by rewrite <- ?app_assoc.
Qed.

Lemma release_unbound (hdev : hid_device) (w : world) :
  drvdata w !! hid hdev = None → devres w !! hid hdev = None →
  device_release_driver hdev w = Ok (emit [HwStop (hid hdev)] w).
Proof.
  intros Hd Hr. unfold device_release_driver, cougar_remove, devres_release_all.
  rewrite Hd. cbn [mbind res_bind devres emit]. rewrite Hr.
  cbn [default from_option id release_nodes mbind res_bind]. f_equal.
  world_ext; maps.
Qed.

(** * The shape of the memory is kept *)

Lemma sound_emit (evs : list event) (w : world) : sound w → sound (emit evs w).
Proof. intros []. by constructor. Qed.

Lemma sound_init (g6 : Z) : sound (module_loaded g6).
Proof.
  constructor; cbn [module_loaded cougar_udev_list shared_mem cougar_mem
                    drvdata devres]; try done.
  - apply NoDup_nil_2.
  - intros p. rewrite lookup_empty. split; [by intros ?%elem_of_nil|].
    by intros [? ?].
Qed.

Lemma sound_registry (w : world) : sound w → registry_ok w.
Proof.
  intros Hs p Hp. apply (sound_listed w Hs) in Hp as [s Hp].
  exists s. split; [done|]. by apply (sound_count w Hs p s).
Qed.

Lemma sound_probed (hdev : hid_device) (w w' : world) (c p : ptr) :
  sound w → drvdata w !! hid hdev = None →
  probed hdev w w' c p → sound w'.
Proof.
  intros Hs Hdd (Hc & Hcm & Hdv & Hdr & _ & _ & _ & s' & Hsm & Hp).
  assert (Hfresh : cougar_mem w !! c = None)
    by (subst c; apply not_elem_of_dom, is_fresh).
  assert (Hlist : (∃ s, shared_mem w !! p = Some s ∧
                        cougar_udev_list w' = cougar_udev_list w ∧
                        kref s' = kref s + 1) ∨
                  (shared_mem w !! p = None ∧
                   cougar_udev_list w' = cougar_udev_list w ++ [p] ∧
                   kref s' = 1)).
  { destruct (shared_mem w !! p) as [s|] eqn:Hsp.
    - left. exists s. naive_solver.
    - right. naive_solver. }
  clear Hp.
  assert (Hholders : ∀ q, holders q (cougar_mem w')
                       = if decide (p = q) then S (holders q (cougar_mem w))
                         else holders q (cougar_mem w)).
  { intros q. rewrite Hcm, holders_insert by done. cbn [shared].
    repeat case_decide; congruence. }
  constructor.
  - destruct Hlist as [(s & _ & -> & _) | (Hn & -> & _)];
      [apply (sound_nodup w Hs)|].
    apply NoDup_app. split; [apply (sound_nodup w Hs)|]. split.
    + intros q Hq ->%list_elem_of_singleton.
      apply (sound_listed w Hs) in Hq as [? ?]. congruence.
    + apply NoDup_singleton.
  - intros q. rewrite Hsm. rewrite lookup_insert_is_Some.
    destruct Hlist as [(s & Hsp & -> & _) | (Hn & -> & _)].
    + rewrite (sound_listed w Hs).
      destruct (decide (p = q)) as [<-|]; [|naive_solver]. split; eauto.
    + rewrite elem_of_app, list_elem_of_singleton, (sound_listed w Hs).
      destruct (decide (p = q)) as [<-|]; naive_solver.
  - intros q t. rewrite Hsm, Hholders. case_decide as Hq.
    + subst q. rewrite lookup_insert_eq. intros [= <-].
      destruct Hlist as [(s & Hsp & _ & ->) | (Hn & _ & ->)].
      * destruct (sound_count w Hs p s Hsp). lia.
      * rewrite holders_none; [done|]. intros c' g' Hc' Hg'.
        destruct (sound_cougar w Hs c' g' Hc') as (_ & p' & Hp' & [? ?]).
        congruence.
    + rewrite lookup_insert_ne by done. apply (sound_count w Hs).
  - intros c' g'. rewrite Hcm, Hdv, Hsm.
    destruct (decide (c' = c)) as [->|Hne].
    + rewrite lookup_insert_eq. intros [= <-]. split.
      * exists (hid hdev). by rewrite lookup_insert_eq.
      * exists p. split; [done|]. rewrite lookup_insert_eq. eauto.
    + rewrite lookup_insert_ne by done. intros Hc'.
      destruct (sound_cougar w Hs c' g' Hc') as ((h & Hh) & p' & Hp' & Hlive).
      split.
      * exists h. rewrite lookup_insert_ne; [done|]. congruence.
      * exists p'. split; [done|]. rewrite lookup_insert_is_Some.
        destruct (decide (p = p')); eauto.
  - intros h c'. rewrite Hcm, Hdv, Hdr.
    destruct (decide (h = hid hdev)) as [->|Hne].
    + rewrite !lookup_insert_eq. intros [= <-]. split; [|done].
      rewrite lookup_insert_eq. eauto.
    + rewrite !(lookup_insert_ne _ (hid hdev) h) by done. intros Hh.
      destruct (sound_drvdata w Hs h c' Hh) as (Hlive & Hr).
      split; [|done]. rewrite lookup_insert_is_Some.
      destruct (decide (c = c')); eauto.
  - intros h nodes. rewrite Hdv, Hdr.
    destruct (decide (h = hid hdev)) as [->|Hne].
    + rewrite !lookup_insert_eq. intros [= <-]. eauto.
    + rewrite !(lookup_insert_ne _ (hid hdev) h) by done.
      apply (sound_devres w Hs).
  - intros h1 h2 c'. rewrite Hdv.
    destruct (decide (h1 = hid hdev)) as [->|Hne1],
             (decide (h2 = hid hdev)) as [->|Hne2]; [done| | |].
    + rewrite lookup_insert_eq, lookup_insert_ne by done. intros [= <-] Hh.
      destruct (sound_drvdata w Hs h2 c Hh) as ([? ?] & _). congruence.
    + rewrite lookup_insert_eq, lookup_insert_ne by done. intros Hh [= <-].
      destruct (sound_drvdata w Hs h1 c Hh) as ([? ?] & _). congruence.
    + rewrite !lookup_insert_ne by done. apply (sound_owner w Hs).
Qed.

Lemma sound_bound (hdev : hid_device) (c : ptr) (w : world) :
  sound w → drvdata w !! hid hdev = Some c →
  ∃ g p s, cougar_mem w !! c = Some g ∧ shared g = Some p ∧
           shared_mem w !! p = Some s ∧
           devres w !! hid hdev = Some (bound_nodes c).
Proof.
  intros Hs Hd. destruct (sound_drvdata w Hs _ _ Hd) as ([g Hg] & Hr).
  destruct (sound_cougar w Hs c g Hg) as (_ & p & Hp & [s Hsp]).
  by exists g, p, s.
Qed.

Lemma sound_unbound (hdev : hid_device) (w : world) :
  sound w → drvdata w !! hid hdev = None → devres w !! hid hdev = None.
Proof.
  intros Hs Hd. destruct (devres w !! hid hdev) as [nodes|] eqn:Hr; [|done].
  destruct (sound_devres w Hs _ _ Hr) as (c & _ & Hc). congruence.
Qed.

Lemma sound_released (hdev : hid_device) (c : ptr) (g : cougar) (p : ptr)
    (s : cougar_shared) (w : world) :
  sound w →
  drvdata w !! hid hdev = Some c → cougar_mem w !! c = Some g →
  shared g = Some p → shared_mem w !! p = Some s →
  sound (set_drvdata (delete (hid hdev) (drvdata w))
           (set_devres (delete (hid hdev) (devres w))
              (set_cougar_mem (delete c (cougar_mem w))
                 (if kref s - 1 =? 0 then
                    set_shared_mem (delete p (shared_mem w))
                      (set_udev_list (list_del p (cougar_udev_list w)) w)
                  else
                    put_shared p
                      (with_kref (kref s - 1) (with_enabled false s)) w)))).
Proof.
  intros Hs Hd Hc Hg Hsp.
  destruct (sound_count w Hs p s Hsp) as (Hcount & Hk).
  assert (Hholders : ∀ q, holders q (cougar_mem w)
                       = if decide (p = q)
                         then S (holders q (delete c (cougar_mem w)))
                         else holders q (delete c (cougar_mem w))).
  { intros q. rewrite (holders_delete q c g) by done.
    repeat case_decide; congruence. }
  assert (Hothers : ∀ c' g', c' ≠ c → cougar_mem w !! c' = Some g' →
                             shared g' = Some p → 2 ≤ kref s).
  { intros c' g' Hne Hc' Hg'. rewrite Hcount.
    pose proof (holders_two p c' c g' g (cougar_mem w) Hne Hc' Hc Hg' Hg).
    lia. }
  set (last := kref s - 1 =? 0).
  assert (Hlast : last = true → kref s = 1) by (subst last; lia).
  assert (Hmore : last = false → 2 ≤ kref s) by (subst last; lia).
  constructor.
  - destruct last; proj; [|apply (sound_nodup w Hs)].
    apply NoDup_filter, (sound_nodup w Hs).
  - intros q. destruct last; proj.
    + unfold list_del. rewrite list_elem_of_filter, (sound_listed w Hs).
      destruct (decide (q = p)) as [->|Hne].
      * rewrite lookup_delete_eq. split; [naive_solver|]. by intros [? ?].
      * rewrite lookup_delete_ne by done. naive_solver.
    + rewrite lookup_insert_is_Some, (sound_listed w Hs).
      destruct (decide (p = q)) as [<-|]; [|naive_solver]. split; eauto.
  - intros q t. destruct last eqn:Hl; proj.
    + destruct (decide (q = p)) as [->|Hne];
        [by rewrite lookup_delete_eq|].
      rewrite lookup_delete_ne by done. intros Hq.
      destruct (sound_count w Hs q t Hq) as (Hqc & Hqk).
      rewrite Hholders in Hqc. rewrite decide_False in Hqc by done. done.
    + destruct (decide (q = p)) as [->|Hne].
      * rewrite lookup_insert_eq. intros [= <-]. cbn [kref with_kref].
        rewrite Hholders in Hcount. rewrite decide_True in Hcount by done.
        specialize (Hmore eq_refl). lia.
      * rewrite lookup_insert_ne by done. intros Hq.
        destruct (sound_count w Hs q t Hq) as (Hqc & Hqk).
        rewrite Hholders in Hqc. rewrite decide_False in Hqc by done. done.
  - intros c' g'.
    assert (Hgoal : delete c (cougar_mem w) !! c' = Some g' →
              (∃ h, delete (hid hdev) (drvdata w) !! h = Some c') ∧
              ∃ p', shared g' = Some p' ∧ is_Some (shared_mem w !! p') ∧
                    (last = true → p' ≠ p)).
    { destruct (decide (c' = c)) as [->|Hne]; [by rewrite lookup_delete_eq|].
      rewrite lookup_delete_ne by done. intros Hc'.
      destruct (sound_cougar w Hs c' g' Hc') as ((h & Hh) & p' & Hp' & Hlive).
      split.
      - exists h. rewrite lookup_delete_ne; [done|]. congruence.
      - exists p'. split; [done|]. split; [done|]. intros Hl ->.
        specialize (Hothers c' g' Hne Hc' Hp'). specialize (Hlast Hl). lia. }
    destruct last; proj; intros Hc'.
    + destruct (Hgoal Hc') as (Hown & p' & Hp' & Hlive & Hnp).
      split; [done|]. exists p'. split; [done|].
      rewrite lookup_delete_ne; [done|]. intros ->. by apply Hnp.
    + destruct (Hgoal Hc') as (Hown & p' & Hp' & Hlive & _).
      split; [done|]. exists p'. split; [done|].
      rewrite lookup_insert_is_Some. destruct (decide (p = p')); eauto.
  - intros h c'.
    assert (Hgoal : delete (hid hdev) (drvdata w) !! h = Some c' →
              is_Some (delete c (cougar_mem w) !! c') ∧
              delete (hid hdev) (devres w) !! h = Some (bound_nodes c')).
    { destruct (decide (h = hid hdev)) as [->|Hne];
        [by rewrite lookup_delete_eq|].
      rewrite !(lookup_delete_ne _ (hid hdev) h) by done. intros Hh.
      destruct (sound_drvdata w Hs h c' Hh) as (Hlive & Hr).
      split; [|done]. rewrite lookup_delete_ne; [done|]. intros <-.
      apply Hne. symmetry. by apply (sound_owner w Hs _ _ c). }
    by destruct last.
  - intros h nodes.
    assert (Hgoal : delete (hid hdev) (devres w) !! h = Some nodes →
              ∃ c', nodes = bound_nodes c' ∧
                    delete (hid hdev) (drvdata w) !! h = Some c').
    { destruct (decide (h = hid hdev)) as [->|Hne];
        [by rewrite lookup_delete_eq|].
      rewrite !(lookup_delete_ne _ (hid hdev) h) by done.
      apply (sound_devres w Hs). }
    by destruct last.
  - intros h1 h2 c'.
    assert (Hgoal : delete (hid hdev) (drvdata w) !! h1 = Some c' →
                    delete (hid hdev) (drvdata w) !! h2 = Some c' → h1 = h2).
    { intros H1%lookup_delete_Some H2%lookup_delete_Some.
      apply (sound_owner w Hs h1 h2 c'); tauto. }
    by destruct last.
Qed.

Lemma raw_event_emits (hdev : hid_device) (data : list Z) (w w' : world)
    (ret : Z) :
  cougar_raw_event hdev data w = Ok (ret, w') → ∃ evs, w' = emit evs w.
Proof.
  unfold cougar_raw_event.
  destruct (drvdata w !! hid hdev) as [c|]; [|done]. cbn [deref mbind res_bind].
  destruct (cougar_mem w !! c) as [g|]; [|done]. cbn [deref mbind res_bind].
  assert (Hsame : ∀ r, Ok (0, w) = Ok (r, w') → ∃ evs, w' = emit evs w).
  { intros r [= _ <-]. exists []. by rewrite emit_nil. }
  destruct (special_intf g); cbn [negb]; [|apply Hsame].
  destruct (shared g) as [p|]; [|apply Hsame].
  destruct (shared_mem w !! p) as [s|]; [|done]. cbn [deref mbind res_bind].
  destruct (input s) as [i|]; [|apply Hsame].
  destruct (enabled s); cbn [negb]; [|apply Hsame].
  destruct (index data COUGAR_FIELD_CODE) as [code|]; [|done].
  cbn [mbind res_bind].
  destruct (index data COUGAR_FIELD_ACTION) as [action|]; [|done].
  cbn [mbind res_bind].
  destruct (lookup_mapping (cougar_mapping w) code) as [[k|]|]; [| |done];
    cbn [mbind res_bind]; intros [= _ <-]; eauto.
Qed.

Lemma core_step_step (w w' : world) : core_step w w' → step w w'.
Proof.
  intros [o hdev w0 e w0' _ _ H | hdev w0 w0' H | hdev data w0 r w0' H].
  - by apply (step_probe o hdev w0 e).
  - by apply (step_release hdev).
  - by apply (step_raw_event hdev data w0 r).
Qed.

Lemma core_reachable_reachable (g6 : Z) (w : world) :
  core_reachable g6 w → reachable g6 w.
Proof.
  unfold core_reachable, reachable. induction 1 as [|x y z Hxy _ IH].
  - apply rtc_refl.
  - eapply rtc_l; [by apply core_step_step | done].
Qed.

Lemma core_step_sound (w w' : world) :
  terminated (cougar_mapping w) = true → sound w → core_step w w' → sound w'.
Proof.
  intros Hterm Hs Hstep. revert Hterm Hs.
  destruct Hstep as [o hdev w0 e w0' Hdd Hdr H | hdev w0 w0' H
                     | hdev data w0 r w0' H]; intros Hterm Hs.
  - destruct (really_probe_shape o hdev w0 (sound_registry _ Hs) Hdd Hdr Hterm)
      as (e' & w1 & Hp & Hcases).
    rewrite Hp in H. injection H as <- <-.
    destruct Hcases as [(_ & evs & -> & _) | (_ & c & p & Hprobed)].
    + by apply sound_emit.
    + by apply (sound_probed hdev w0 w1 c p).
  - destruct (drvdata w0 !! hid hdev) as [c|] eqn:Hd.
    + destruct (sound_bound hdev c w0 Hs Hd) as (g & p & s & Hc & Hg & Hsp & Hr).
      rewrite (release_bound hdev c g p s) in H by done.
      injection H as <-. apply sound_emit. by apply (sound_released hdev c g).
    + rewrite release_unbound in H by (by try apply sound_unbound).
      injection H as <-. by apply sound_emit.
  - apply raw_event_emits in H as [evs ->]. by apply sound_emit.
Qed.

Lemma core_reachable_sound (g6 : Z) (w : world) :
  core_reachable g6 w → sound w.
Proof.
  unfold core_reachable. revert w.
  apply (rtc_ind_r (R := core_step) sound); [apply sound_init|].
  intros w1 w2 Hreach Hstep IH.
  eapply core_step_sound; [|exact IH|exact Hstep].
  by apply (reachable_terminated g6), core_reachable_reachable.
Qed.

(** * Binding, probing and releasing, as a caller sees them *)

Lemma find_shared_listed (hdev : hid_device) (w : world) (p : ptr) :
  registry_ok w →
  find_shared hdev (shared_mem w) (cougar_udev_list w) = Ok (Some p) →
  p ∈ cougar_udev_list w.
Proof.
  intros Hok Hf.
  destruct (find_shared_registry hdev w Hok) as [(q & s & Hq & Hin & _) | Hn];
    congruence.
Qed.

(** X10: [cougar_bind_shared_data], on a live [cougar] that holds nothing
    and a registry whose listed objects are live, always returns; when it
    returns an error (-ENOMEM, or what [devm_add_action] returned) the
    world is exactly what it was, also when the object had just been
    allocated and listed; when it returns 0, the [cougar] points to a
    listed live object whose count is one more than before (1 for a new
    object), the registry is still well formed, and the removal is the
    newest managed resource of the device. *)
Theorem bind_shared_data_all_or_nothing (o : outcomes) (hdev : hid_device)
    (c : ptr) (g : cougar) (w : world) :
  registry_ok w → cougar_mem w !! c = Some g → shared g = None →
  ∃ error w',
    cougar_bind_shared_data o hdev c w = Ok (error, w') ∧
    (error ≠ 0 →
       w' = w ∧ (error = - ENOMEM ∨ error = devm_add_action_ret o)) ∧
    (error = 0 →
       registry_ok w' ∧
       ∃ p s',
         cougar_mem w' = <[c := with_shared (Some p) g]> (cougar_mem w) ∧
         shared_mem w' = <[p := s']> (shared_mem w) ∧
         p ∈ cougar_udev_list w' ∧
         devres w' !! hid hdev
         = Some (DevresRemoveSharedData c
                   :: default [] (devres w !! hid hdev)) ∧
         kref s' = match shared_mem w !! p with
                   | Some s => kref s + 1
                   | None => 1
                   end).
Proof.
  intros Hok Hc Hg.
  destruct (bind_cases o hdev c g w Hok Hc) as (e & w' & Hb & Hcases).
  exists e, w'. split; [done|].
  destruct Hcases as [(-> & _ & ->) | [(-> & Hne & ->) |
    [(-> & p & s & Hf & Hs & Hk & ->) | (-> & Hf & ->)]]].
  - split; [intros _; split; [done|by left] | done].
  - split; [|done]. intros _. split; [|by right].
    world_ext. apply insert_id. rewrite Hc. f_equal.
    destruct g as [si sh]. cbn in Hg. by subst sh.
  - split; [done|]. intros _. split.
    + intros q Hq. proj_in Hq. proj.
      destruct (decide (q = p)) as [->|Hne].
      * rewrite lookup_insert_eq. eexists. split; [done|].
        cbn [kref with_kref]. lia.
      * rewrite lookup_insert_ne by done. by apply Hok.
    + exists p, (with_kref (kref s + 1) s). proj.
      split; [done|]. split; [done|].
      split; [by apply (find_shared_listed hdev)|].
      split; [by rewrite lookup_insert_eq|]. by rewrite Hs.
  - set (p := fresh (dom (shared_mem w))).
    assert (Hp : shared_mem w !! p = None) by apply not_elem_of_dom, is_fresh.
    split; [done|]. intros _. split.
    + intros q Hq. proj_in Hq. proj.
      apply elem_of_app in Hq as [Hq | ->%list_elem_of_singleton].
      * rewrite lookup_insert_ne; [by apply Hok|]. intros <-.
        destruct (Hok _ Hq) as (? & ? & _). congruence.
      * rewrite lookup_insert_eq. eexists. split; [done|]. done.
    + eexists p, _. proj.
      split; [done|]. split; [done|].
      split; [apply elem_of_app; right; by apply list_elem_of_singleton|].
      split; [by rewrite lookup_insert_eq|]. by rewrite Hp.
Qed.

Lemma bind_shared_data_all_or_nothing_witness :
  ∃ error w',
    cougar_bind_shared_data all_succeed Demo.keyboard 1%positive Demo.allocated
    = Ok (error, w') ∧
    (error ≠ 0 →
       w' = Demo.allocated ∧
       (error = - ENOMEM ∨ error = devm_add_action_ret all_succeed)) ∧
    (error = 0 →
       registry_ok w' ∧
       ∃ p s',
         cougar_mem w'
         = <[1%positive := with_shared (Some p)
                             {| special_intf := false; shared := None |}]>
             (cougar_mem Demo.allocated) ∧
         shared_mem w' = <[p := s']> (shared_mem Demo.allocated) ∧
         p ∈ cougar_udev_list w' ∧
         devres w' !! hid Demo.keyboard
         = Some (DevresRemoveSharedData 1%positive
                   :: default [] (devres Demo.allocated !! hid Demo.keyboard)) ∧
         kref s' = match shared_mem Demo.allocated !! p with
                   | Some s => kref s + 1
                   | None => 1
                   end).
Proof.
  apply (bind_shared_data_all_or_nothing all_succeed Demo.keyboard 1%positive
           {| special_intf := false; shared := None |} Demo.allocated).
  - intros p Hp. by apply elem_of_nil in Hp.
  - by vm_compute.
  - reflexivity.
Defined.

Lemma registry_ok_loaded (g6 : Z) : registry_ok (module_loaded g6).
Proof. intros p Hp. by apply elem_of_nil in Hp. Qed.

(** X11: the probe of a device with no driver data and no managed resource,
    in a state with a well-formed registry and a terminated table, always
    returns; when it fails, once the driver core has released the managed
    resources, the world is what it was before the probe but for the
    trace: nothing is allocated, listed, counted or bound, and where the
    hardware was started it has been stopped. *)
Theorem failed_probe_restores (o : outcomes) (hdev : hid_device) (w : world) :
  registry_ok w →
  drvdata w !! hid hdev = None → devres w !! hid hdev = None →
  terminated (cougar_mapping w) = true →
  ∃ error w',
    really_probe o hdev w = Ok (error, w') ∧
    (error ≠ 0 → ∃ evs, w' = emit evs w ∧ failure_events hdev evs).
Proof.
  intros Hok Hdd Hdr Hterm.
  destruct (really_probe_shape o hdev w Hok Hdd Hdr Hterm)
    as (e & w' & Hp & Hcases).
  exists e, w'. split; [done|]. intros He.
  destruct Hcases as [(_ & Hev) | (-> & _)]; [exact Hev | done].
Qed.

Lemma failed_probe_restores_witness :
  ∃ error w',
    really_probe Demo.open_fails Demo.vendor (module_loaded 1)
    = Ok (error, w') ∧
    (error ≠ 0 →
       ∃ evs, w' = emit evs (module_loaded 1) ∧
              failure_events Demo.vendor evs).
Proof.
  apply (failed_probe_restores Demo.open_fails Demo.vendor (module_loaded 1)).
  - apply registry_ok_loaded.
  - reflexivity.
  - reflexivity.
  - reflexivity.
Defined.

(** X12: when the probe of a device with no driver data and no managed
    resource, in a state with a well-formed registry and a terminated
    table, succeeds, a new [cougar] is the driver data of the device and
    points to one object: the one the lookup finds on the list, with one
    more reference, or else a new one at the end of the list with a count
    of 1.  The vendor interface alone is flagged special, started with
    hidraw only and opened; only a keyboard interface touches the table,
    and only a keyboard interface with a registered input enables the
    object and sets its input. *)
Theorem probe_success_binds (o : outcomes) (hdev : hid_device) (w w' : world) :
  registry_ok w →
  drvdata w !! hid hdev = None → devres w !! hid hdev = None →
  terminated (cougar_mapping w) = true →
  really_probe o hdev w = Ok (0, w') →
  ∃ c p, probed hdev w w' c p.
Proof.
  intros Hok Hdd Hdr Hterm Hprobe.
  destruct (really_probe_shape o hdev w Hok Hdd Hdr Hterm)
    as (e & w1 & Hp & Hcases).
  rewrite Hp in Hprobe. injection Hprobe as -> ->.
  destruct Hcases as [(He & _) | (_ & Hprobed)]; [done | exact Hprobed].
Qed.

Lemma probe_success_binds_witness :
  ∃ c p, probed Demo.keyboard (module_loaded 1) (Demo.keyboard_probed 1) c p.
Proof.
  apply (probe_success_binds all_succeed Demo.keyboard (module_loaded 1)).
  - apply registry_ok_loaded.
  - reflexivity.
  - reflexivity.
  - reflexivity.
  - by vm_compute.
Defined.

(** * After any history of probes, releases and raw events *)

Lemma vendor_probed_core_reachable (g6 : Z) :
  core_reachable g6 (Demo.vendor_probed g6).
Proof.
  unfold core_reachable. eapply rtc_r; [apply rtc_refl|].
  apply (core_probe all_succeed Demo.vendor _ 0); [done | done |].
  by vm_compute.
Qed.

Lemma both_probed_core_reachable (g6 : Z) :
  core_reachable g6 (Demo.both_probed g6).
Proof.
  unfold core_reachable.
  eapply rtc_r; [apply vendor_probed_core_reachable|].
  apply (core_probe all_succeed Demo.keyboard _ 0);
    [by vm_compute | by vm_compute |]. by vm_compute.
Qed.

(** X13: in every state reached by probes of unbound devices, releases and
    raw events, releasing a bound device returns: its driver data, its
    [cougar] and its managed resources are gone, the vendor interface is
    closed before the hardware is stopped, and its shared object loses one
    reference; the object is taken off the list and freed when that was
    the last one, and is otherwise left listed and disabled. *)
Theorem release_drops_one_reference (g6 : Z) (hdev : hid_device) (c : ptr)
    (w : world) :
  core_reachable g6 w → drvdata w !! hid hdev = Some c →
  ∃ g p s w',
    cougar_mem w !! c = Some g ∧ shared g = Some p ∧
    shared_mem w !! p = Some s ∧
    device_release_driver hdev w = Ok w' ∧
    drvdata w' = delete (hid hdev) (drvdata w) ∧
    devres w' = delete (hid hdev) (devres w) ∧
    cougar_mem w' = delete c (cougar_mem w) ∧
    cougar_mapping w' = cougar_mapping w ∧
    trace w' = trace w ++ (if special_intf g then [HwClose (hid hdev)] else [])
                       ++ [HwStop (hid hdev)] ∧
    if kref s =? 1 then
      shared_mem w' = delete p (shared_mem w) ∧
      cougar_udev_list w' = list_del p (cougar_udev_list w)
    else
      shared_mem w'
      = <[p := with_kref (kref s - 1) (with_enabled false s)]> (shared_mem w) ∧
      cougar_udev_list w' = cougar_udev_list w.
Proof.
  intros Hreach Hd. pose proof (core_reachable_sound g6 w Hreach) as Hs.
  destruct (sound_bound hdev c w Hs Hd) as (g & p & s & Hc & Hg & Hsp & Hr).
  exists g, p, s. eexists. split; [done|]. split; [done|]. split; [done|].
  split; [by apply (release_bound hdev c g p s)|].
  replace (kref s =? 1) with (kref s - 1 =? 0)
    by (destruct (Z.eqb_spec (kref s - 1) 0), (Z.eqb_spec (kref s) 1); lia).
  destruct (kref s - 1 =? 0); proj; done.
Qed.

Lemma release_drops_one_reference_witness :
  ∃ g p s w',
    cougar_mem (Demo.both_probed 1) !! 1%positive = Some g ∧
    shared g = Some p ∧
    shared_mem (Demo.both_probed 1) !! p = Some s ∧
    device_release_driver Demo.vendor (Demo.both_probed 1) = Ok w' ∧
    drvdata w' = delete (hid Demo.vendor) (drvdata (Demo.both_probed 1)) ∧
    devres w' = delete (hid Demo.vendor) (devres (Demo.both_probed 1)) ∧
    cougar_mem w' = delete 1%positive (cougar_mem (Demo.both_probed 1)) ∧
    cougar_mapping w' = cougar_mapping (Demo.both_probed 1) ∧
    trace w' = trace (Demo.both_probed 1)
               ++ (if special_intf g then [HwClose (hid Demo.vendor)] else [])
               ++ [HwStop (hid Demo.vendor)] ∧
    if kref s =? 1 then
      shared_mem w' = delete p (shared_mem (Demo.both_probed 1)) ∧
      cougar_udev_list w' = list_del p (cougar_udev_list (Demo.both_probed 1))
    else
      shared_mem w'
      = <[p := with_kref (kref s - 1) (with_enabled false s)]>
          (shared_mem (Demo.both_probed 1)) ∧
      cougar_udev_list w' = cougar_udev_list (Demo.both_probed 1).
Proof.
  apply (release_drops_one_reference 1 Demo.vendor 1%positive
           (Demo.both_probed 1)).
  - apply both_probed_core_reachable.
  - by vm_compute.
Defined.

(** X14: in every such state the list holds exactly the live shared
    objects, once each; the count of a shared object is at least 1 and is
    the number of [cougar] structures that point to it; and every [cougar]
    is the driver data of exactly one device, which manages it, and points
    to a live shared object. *)
Theorem refcount_counts_holders (g6 : Z) (w : world) :
  core_reachable g6 w →
  NoDup (cougar_udev_list w) ∧
  (∀ p, p ∈ cougar_udev_list w ↔ is_Some (shared_mem w !! p)) ∧
  (∀ p s, shared_mem w !! p = Some s →
     1 ≤ kref s ∧ kref s = Z.of_nat (holders p (cougar_mem w))) ∧
  (∀ c g, cougar_mem w !! c = Some g →
     ∃ h p, drvdata w !! h = Some c ∧
            (∀ h', drvdata w !! h' = Some c → h' = h) ∧
            devres w !! h = Some (bound_nodes c) ∧
            shared g = Some p ∧ is_Some (shared_mem w !! p)).
Proof.
  intros Hreach. pose proof (core_reachable_sound g6 w Hreach) as Hs.
  split; [apply (sound_nodup w Hs)|]. split; [apply (sound_listed w Hs)|].
  split.
  - intros p s Hp. destruct (sound_count w Hs p s Hp). done.
  - intros c g Hc.
    destruct (sound_cougar w Hs c g Hc) as ((h & Hh) & p & Hp & Hlive).
    exists h, p. split; [done|]. split.
    + intros h' Hh'. by apply (sound_owner w Hs h' h c).
    + split; [|done]. by apply (sound_drvdata w Hs h c).
Qed.

Lemma refcount_counts_holders_witness :
  NoDup (cougar_udev_list (Demo.both_probed 1)) ∧
  (∀ p, p ∈ cougar_udev_list (Demo.both_probed 1)
        ↔ is_Some (shared_mem (Demo.both_probed 1) !! p)) ∧
  (∀ p s, shared_mem (Demo.both_probed 1) !! p = Some s →
     1 ≤ kref s ∧
     kref s = Z.of_nat (holders p (cougar_mem (Demo.both_probed 1)))) ∧
  (∀ c g, cougar_mem (Demo.both_probed 1) !! c = Some g →
     ∃ h p, drvdata (Demo.both_probed 1) !! h = Some c ∧
            (∀ h', drvdata (Demo.both_probed 1) !! h' = Some c → h' = h) ∧
            devres (Demo.both_probed 1) !! h = Some (bound_nodes c) ∧
            shared g = Some p ∧
            is_Some (shared_mem (Demo.both_probed 1) !! p)).
Proof.
  apply (refcount_counts_holders 1 (Demo.both_probed 1)).
  apply both_probed_core_reachable.
Defined.

(** X15: in every such state where no device has driver data, nothing is
    left: no [cougar], no shared object, an empty list and no managed
    resource. *)
Theorem nothing_bound_nothing_left (g6 : Z) (w : world) :
  core_reachable g6 w → drvdata w = ∅ →
  cougar_mem w = ∅ ∧ shared_mem w = ∅ ∧ cougar_udev_list w = [] ∧
  devres w = ∅.
Proof.
  intros Hreach Hd. pose proof (core_reachable_sound g6 w Hreach) as Hs.
  assert (Hcm : cougar_mem w = ∅).
  { apply map_empty. intros c. destruct (cougar_mem w !! c) as [g|] eqn:Hc;
      [|done].
    destruct (sound_cougar w Hs c g Hc) as ((h & Hh) & _).
    by rewrite Hd, lookup_empty in Hh. }
  assert (Hsm : shared_mem w = ∅).
  { apply map_empty. intros p. destruct (shared_mem w !! p) as [s|] eqn:Hp;
      [|done].
    destruct (sound_count w Hs p s Hp) as (Hk & Hk1).
    rewrite Hcm in Hk. unfold holders in Hk.
    rewrite map_filter_empty, map_size_empty in Hk. lia. }
  split; [done|]. split; [done|]. split.
  - apply elem_of_nil_inv. intros p Hp.
    apply (sound_listed w Hs) in Hp as [s Hp].
    by rewrite Hsm, lookup_empty in Hp.
  - apply map_empty. intros h. destruct (devres w !! h) as [nodes|] eqn:Hr;
      [|done].
    destruct (sound_devres w Hs h nodes Hr) as (c & _ & Hc).
    by rewrite Hd, lookup_empty in Hc.
Qed.

Lemma vendor_released_core_reachable (g6 : Z) :
  core_reachable g6 (vendor_released g6).
Proof.
  unfold core_reachable.
  eapply rtc_r; [apply vendor_probed_core_reachable|].
  apply (core_release Demo.vendor). by vm_compute.
Qed.

Lemma nothing_bound_nothing_left_witness :
  cougar_mem (vendor_released 1) = ∅ ∧ shared_mem (vendor_released 1) = ∅ ∧
  cougar_udev_list (vendor_released 1) = [] ∧ devres (vendor_released 1) = ∅.
Proof.
  apply (nothing_bound_nothing_left 1 (vendor_released 1)).
  - apply vendor_released_core_reachable.
  - by vm_compute.
Defined.



(** * Binding again *)

(** X17: when an interface other than the keyboard is released and probed
    again with success, and is bound to the object it had, its gate is
    closed: every raw event returns 0 and leaves the world untouched.  The
    release disabled the object and only the probe of a keyboard interface
    enables one. *)
Theorem rebind_leaves_gate_closed (g6 : Z) (o : outcomes) (hdev : hid_device)
    (p : ptr) (w w1 w2 : world) :
  core_reachable g6 w → bound_to hdev w p →
  collection_usage hdev ≠ HID_GD_KEYBOARD →
  device_release_driver hdev w = Ok w1 →
  really_probe o hdev w1 = Ok (0, w2) →
  bound_to hdev w2 p →
  gate_closed hdev w2 ∧ ∀ data, cougar_raw_event hdev data w2 = Ok (0, w2).
Proof.
  intros Hreach (c & g & Hd & Hc & Hg) Hkbd Hrel Hprobe (c2 & g2 & Hd2 & Hc2 & Hg2).
  pose proof (core_reachable_sound g6 w Hreach) as Hs.
  destruct (sound_bound hdev c w Hs Hd) as (g' & p' & s & Hc' & Hg' & Hsp & Hr).
  assert (g' = g) as -> by congruence. assert (p' = p) as -> by congruence.
  assert (Hreach1 : core_reachable g6 w1)
    by (eapply rtc_r; [exact Hreach | by apply (core_release hdev)]).
  pose proof (core_reachable_sound g6 w1 Hreach1) as Hs1.
  rewrite (release_bound hdev c g p s) in Hrel by done.
  assert (Hoff : match shared_mem w1 !! p with
                 | Some s1 => enabled s1 = false
                 | None => True
                 end).
  { injection Hrel as <-. destruct (kref s - 1 =? 0); proj.
    - by rewrite lookup_delete_eq.
    - by rewrite lookup_insert_eq. }
  assert (Hd1 : drvdata w1 !! hid hdev = None).
  { injection Hrel as <-. proj. apply lookup_delete_eq. }
  destruct (really_probe_shape o hdev w1 (sound_registry _ Hs1) Hd1
              (sound_unbound hdev w1 Hs1 Hd1)) as (e & w2' & Hp & Hcases).
  { by apply (reachable_terminated g6), core_reachable_reachable. }
  rewrite Hp in Hprobe. injection Hprobe as -> ->.
  destruct Hcases as [(He & _) | (_ & c' & p' & Hprobed)]; [done|].
  destruct Hprobed as (_ & Hcm & Hdv & _ & _ & _ & _ & s' & Hsm & Hcase).
  rewrite Hdv, lookup_insert_eq in Hd2. injection Hd2 as <-.
  rewrite Hcm, lookup_insert_eq in Hc2. injection Hc2 as <-.
  cbn [shared] in Hg2. injection Hg2 as ->.
  assert (Hin : keyboard_input hdev = None).
  { unfold keyboard_input.
    by destruct (Z.eqb_spec (collection_usage hdev) HID_GD_KEYBOARD). }
  rewrite Hin in Hcase.
  assert (Hen : enabled s' = false).
  { destruct (shared_mem w1 !! p) as [s1|].
    - destruct Hcase as (_ & _ & _ & _ & -> & _). done.
    - by destruct Hcase as (_ & _ & _ & _ & _ & -> & _). }
  assert (Hsp2 : shared_mem w2 !! p = Some s')
    by (by rewrite Hsm, lookup_insert_eq).
  assert (Hc2 : cougar_mem w2 !! c'
                = Some {| special_intf
                            := collection_usage hdev =? COUGAR_VENDOR_USAGE;
                          shared := Some p |})
    by (by rewrite Hcm, lookup_insert_eq).
  assert (Hd2 : drvdata w2 !! hid hdev = Some c')
    by (by rewrite Hdv, lookup_insert_eq).
  split.
  - eexists _, _. split; [done|]. split; [done|]. right. right.
    exists p, s'. eauto.
  - intros data. unfold cougar_raw_event. rewrite Hd2.
    cbn [deref mbind res_bind]. rewrite Hc2.
    cbn [deref mbind res_bind special_intf shared].
    destruct (collection_usage hdev =? COUGAR_VENDOR_USAGE); cbn [negb];
      [|done].
    rewrite Hsp2. cbn [deref mbind res_bind]. rewrite Hen.
    by destruct (input s').
Qed.

Lemma rebind_leaves_gate_closed_witness :
  gate_closed Demo.vendor (vendor_rebound_from (Demo.both_probed 1)) ∧
  ∀ data,
    cougar_raw_event Demo.vendor data (vendor_rebound_from (Demo.both_probed 1))
    = Ok (0, vendor_rebound_from (Demo.both_probed 1)).
Proof.
  apply (rebind_leaves_gate_closed 1 all_succeed Demo.vendor 1%positive
           (Demo.both_probed 1) (vendor_released_from (Demo.both_probed 1))).
  - apply both_probed_core_reachable.
  - eexists _, _. split; [by vm_compute|]. split; [by vm_compute|]. done.
  - by vm_compute.
  - by vm_compute.
  - by vm_compute.
  - eexists _, _. split; [by vm_compute|]. split; [by vm_compute|]. done.
Defined.

(** * Looking up the shared object *)

Lemma find_shared_first (hdev : hid_device) (mem : gmap ptr cougar_shared)
    (l : list ptr) :
  (∀ q, q ∈ l → is_Some (mem !! q)) →
  (∃ l1 p l2 s,
     l = l1 ++ p :: l2 ∧ mem !! p = Some s ∧
     compare_device_paths hdev (dev s) separator = true ∧
     (∀ q t, q ∈ l1 → mem !! q = Some t →
        compare_device_paths hdev (dev t) separator = false) ∧
     find_shared hdev mem l = Ok (Some p)) ∨
  ((∀ q t, q ∈ l → mem !! q = Some t →
      compare_device_paths hdev (dev t) separator = false) ∧
   find_shared hdev mem l = Ok None).
Proof.
  induction l as [|q l IH]; intros Hl.
  - right. split; [|done]. by intros q t ?%elem_of_nil.
  - destruct (Hl q) as [s Hs]; [set_solver|].
    cbn [find_shared]. rewrite Hs. cbn [deref mbind res_bind].
    destruct (compare_device_paths hdev (dev s) separator) eqn:Hcmp.
    + left. exists [], q, l, s. split; [done|]. split; [done|].
      split; [done|]. split; [|done]. by intros q' t ?%elem_of_nil.
    + destruct IH as [(l1 & p & l2 & s' & -> & Hp & Hm & Hbefore & Hf)
                      | (Hnone & Hf)].
      * intros q' Hq'. apply Hl. set_solver.
      * left. exists (q :: l1), p, l2, s'. split; [done|]. split; [done|].
        split; [done|]. split; [|done].
        intros q' t [->|Hq']%elem_of_cons Ht; [congruence|].
        by apply (Hbefore q' t).
      * right. split; [|done].
        intros q' t [->|Hq']%elem_of_cons Ht; [congruence|].
        by apply (Hnone q' t).
Qed.

(** X18: [cougar_get_shared_data] returns the first object of the list
    whose device matches, with its count raised by one and nothing else
    changed, and returns NULL with the world untouched exactly when no
    listed object matches. *)
Theorem get_shared_data_first_match (hdev : hid_device) (w : world) :
  registry_ok w →
  (∃ l1 p l2 s,
     cougar_udev_list w = l1 ++ p :: l2 ∧ shared_mem w !! p = Some s ∧
     compare_device_paths hdev (dev s) separator = true ∧
     (∀ q t, q ∈ l1 → shared_mem w !! q = Some t →
        compare_device_paths hdev (dev t) separator = false) ∧
     cougar_get_shared_data hdev w
     = Ok (Some p, put_shared p (with_kref (kref s + 1) s) w)) ∨
  ((∀ q t, q ∈ cougar_udev_list w → shared_mem w !! q = Some t →
      compare_device_paths hdev (dev t) separator = false) ∧
   cougar_get_shared_data hdev w = Ok (None, w)).
Proof.
  intros Hok. unfold cougar_get_shared_data, kref_get.
  destruct (find_shared_first hdev (shared_mem w) (cougar_udev_list w))
    as [(l1 & p & l2 & s & Hl & Hp & Hm & Hbefore & Hf) | (Hnone & Hf)].
  - intros q Hq. destruct (Hok q Hq) as (s & -> & _). eauto.
  - left. exists l1, p, l2, s. rewrite Hf. cbn [mbind res_bind].
    rewrite Hp. done.
  - right. by rewrite Hf.
Qed.

Lemma get_shared_data_first_match_witness :
  (∃ l1 p l2 s,
     cougar_udev_list (Demo.vendor_probed 1) = l1 ++ p :: l2 ∧
     shared_mem (Demo.vendor_probed 1) !! p = Some s ∧
     compare_device_paths Demo.keyboard (dev s) separator = true ∧
     (∀ q t, q ∈ l1 → shared_mem (Demo.vendor_probed 1) !! q = Some t →
        compare_device_paths Demo.keyboard (dev t) separator = false) ∧
     cougar_get_shared_data Demo.keyboard (Demo.vendor_probed 1)
     = Ok (Some p, put_shared p (with_kref (kref s + 1) s)
                     (Demo.vendor_probed 1))) ∨
  ((∀ q t, q ∈ cougar_udev_list (Demo.vendor_probed 1) →
      shared_mem (Demo.vendor_probed 1) !! q = Some t →
      compare_device_paths Demo.keyboard (dev t) separator = false) ∧
   cougar_get_shared_data Demo.keyboard (Demo.vendor_probed 1)
   = Ok (None, Demo.vendor_probed 1)).
Proof.
  apply (get_shared_data_first_match Demo.keyboard (Demo.vendor_probed 1)).
  intros p Hp. vm_compute in Hp.
  apply list_elem_of_singleton in Hp as ->.
  eexists. split; [by vm_compute|]. done.
Defined.

(** * The keyboard interface opens the gate of its siblings *)

Lemma core_reachable_probe (g6 : Z) (o : outcomes) (hdev : hid_device)
    (w w' : world) (e : Z) :
  core_reachable g6 w → drvdata w !! hid hdev = None →
  really_probe o hdev w = Ok (e, w') →
  core_reachable g6 w' ∧
  (e = 0 → ∃ c p, probed hdev w w' c p).
Proof.
  intros Hreach Hd Hprobe.
  pose proof (core_reachable_sound g6 w Hreach) as Hs.
  pose proof (sound_unbound hdev w Hs Hd) as Hr.
  split.
  - eapply rtc_r; [exact Hreach|]. by apply (core_probe o hdev w e).
  - intros ->.
    destruct (really_probe_shape o hdev w (sound_registry _ Hs) Hd Hr)
      as (e & w1 & Hp & Hcases).
    { by apply (reachable_terminated g6), core_reachable_reachable. }
    rewrite Hp in Hprobe. injection Hprobe as -> ->.
    by destruct Hcases as [(He & _) | (_ & Hprobed)].
Qed.

(** X19: when the probe of a keyboard interface with a registered input
    succeeds and binds it to the object a bound vendor interface points to,
    the gate of that vendor interface is open afterwards, with the input of
    the keyboard. *)
Theorem keyboard_probe_opens_gate (g6 : Z) (o : outcomes)
    (kbd vdev : hid_device) (c p : ptr) (g : cougar) (i : input_dev)
    (w w' : world) :
  core_reachable g6 w →
  drvdata w !! hid vdev = Some c → cougar_mem w !! c = Some g →
  special_intf g = true → shared g = Some p →
  drvdata w !! hid kbd = None →
  collection_usage kbd = HID_GD_KEYBOARD →
  first_registered (inputs kbd) = Some i →
  really_probe o kbd w = Ok (0, w') →
  bound_to kbd w' p →
  gate_open vdev w' i.
Proof.
  intros Hreach Hd Hc Hsi Hg Hdk Hkbd Hin Hprobe (c2 & g2 & Hd2 & Hc2 & Hg2).
  destruct (core_reachable_probe g6 o kbd w w' 0 Hreach Hdk Hprobe)
    as (_ & Hprobed).
  destruct (Hprobed eq_refl)
    as (c' & p' & Hfresh & Hcm & Hdv & _ & _ & _ & _ & s' & Hsm & Hcase).
  rewrite Hdv, lookup_insert_eq in Hd2. injection Hd2 as <-.
  rewrite Hcm, lookup_insert_eq in Hc2. injection Hc2 as <-.
  cbn [shared] in Hg2. injection Hg2 as ->.
  assert (Hki : keyboard_input kbd = Some i).
  { unfold keyboard_input. rewrite Hkbd, Z.eqb_refl. done. }
  rewrite Hki in Hcase.
  assert (Hon : enabled s' = true ∧ input s' = Some i).
  { destruct (shared_mem w !! p); naive_solver. }
  assert (Hne : c ≠ c').
  { intros <-. subst c.
    apply (is_fresh (dom (cougar_mem w))). apply elem_of_dom. eauto. }
  exists c, g, p, s'.
  split. { rewrite Hdv, lookup_insert_ne; [done|]. congruence. }
  split. { by rewrite Hcm, lookup_insert_ne. }
  split; [done|]. split; [done|].
  split. { by rewrite Hsm, lookup_insert_eq. }
  by destruct Hon.
Qed.

Lemma keyboard_probe_opens_gate_witness :
  gate_open Demo.vendor (Demo.both_probed 1) 7%positive.
Proof.
  apply (keyboard_probe_opens_gate 1 all_succeed Demo.keyboard Demo.vendor
           1%positive 1%positive
           {| special_intf := true; shared := Some 1%positive |} 7%positive
           (Demo.vendor_probed 1) (Demo.both_probed 1)).
  - apply vendor_probed_core_reachable.
  - by vm_compute.
  - by vm_compute.
  - reflexivity.
  - reflexivity.
  - by vm_compute.
  - reflexivity.
  - reflexivity.
  - by vm_compute.
  - eexists _, _. split; [by vm_compute|]. split; [by vm_compute|]. done.
Defined.

(** * Probing and releasing again *)

(** X20: a successful probe followed by the release of the same device
    returns, and leaves the [cougar] memory, the driver data, the managed
    resources, the list and the parameter as they were before the probe;
    every shared object is back with its count and device, untouched but
    for the one the device was bound to, which is left disabled. *)
Theorem probe_release_round_trip (g6 : Z) (o : outcomes) (hdev : hid_device)
    (w w1 : world) :
  core_reachable g6 w → drvdata w !! hid hdev = None →
  really_probe o hdev w = Ok (0, w1) →
  ∃ w2,
    device_release_driver hdev w1 = Ok w2 ∧
    cougar_mem w2 = cougar_mem w ∧ drvdata w2 = drvdata w ∧
    devres w2 = devres w ∧ cougar_udev_list w2 = cougar_udev_list w ∧
    cougar_g6_is_space w2 = cougar_g6_is_space w ∧
    (∀ q, shared_mem w !! q = None → shared_mem w2 !! q = None) ∧
    ∀ q s, shared_mem w !! q = Some s →
      ∃ s2, shared_mem w2 !! q = Some s2 ∧ kref s2 = kref s ∧
            dev s2 = dev s ∧
            (s2 = s ∨ bound_to hdev w1 q ∧ enabled s2 = false).
Proof.
  intros Hreach Hd Hprobe.
  destruct (core_reachable_probe g6 o hdev w w1 0 Hreach Hd Hprobe)
    as (Hreach1 & Hprobed).
  destruct (Hprobed eq_refl)
    as (c & p & Hfresh & Hcm & Hdv & Hdr & Hg6 & _ & _ & s' & Hsm & Hcase).
  pose proof (core_reachable_sound g6 w Hreach) as Hs.
  pose proof (sound_unbound hdev w Hs Hd) as Hr.
  assert (Hc : cougar_mem w !! c = None)
    by (subst c; apply not_elem_of_dom, is_fresh).
  set (g := {| special_intf := collection_usage hdev =? COUGAR_VENDOR_USAGE;
               shared := Some p |}) in *.
  assert (Hb : bound_to hdev w1 p).
  { exists c, g. rewrite Hdv, Hcm, !lookup_insert_eq. done. }
  eexists. split.
  { apply (release_bound hdev c g p s').
    - by rewrite Hdv, lookup_insert_eq.
    - by rewrite Hcm, lookup_insert_eq.
    - done.
    - by rewrite Hsm, lookup_insert_eq.
    - by rewrite Hdr, lookup_insert_eq. }
  proj.
  split. { destruct (kref s' - 1 =? 0); proj;
           by rewrite Hcm, delete_insert_eq, delete_id. }
  split. { by rewrite Hdv, delete_insert_eq, delete_id. }
  split. { by rewrite Hdr, delete_insert_eq, delete_id. }
  destruct (shared_mem w !! p) as [s|] eqn:Hsp.
  - destruct Hcase as (_ & Hl & Hk & Hdev & _).
    destruct (sound_count w Hs p s Hsp) as (_ & Hk1).
    destruct (Z.eqb_spec (kref s' - 1) 0) as [|_]; [lia|]. proj.
    split; [done|]. split; [done|]. rewrite Hsm. split.
    + intros q Hq. rewrite !lookup_insert_ne by congruence. done.
    + intros q t Hq. destruct (decide (q = p)) as [->|Hne].
      * rewrite lookup_insert_eq. eexists. split; [done|].
        cbn [kref dev enabled with_kref with_enabled].
        assert (t = s) as -> by congruence.
        split; [lia|]. split; [done|]. right. done.
      * rewrite !lookup_insert_ne by done. exists t. eauto.
  - destruct Hcase as (_ & _ & Hl & Hk & _). rewrite Hk.
    change (1 - 1 =? 0) with true. cbv iota. proj.
    assert (Hnl : p ∉ cougar_udev_list w).
    { intros [? ?]%(sound_listed w Hs). congruence. }
    split. { rewrite Hl. by apply list_del_app_fresh. }
    split; [done|]. rewrite Hsm, delete_insert_eq, delete_id by done.
    split; [done|]. intros q t Hq. exists t. eauto.
Qed.

Lemma probe_release_round_trip_witness :
  ∃ w2,
    device_release_driver Demo.keyboard (Demo.both_probed 1) = Ok w2 ∧
    cougar_mem w2 = cougar_mem (Demo.vendor_probed 1) ∧
    drvdata w2 = drvdata (Demo.vendor_probed 1) ∧
    devres w2 = devres (Demo.vendor_probed 1) ∧
    cougar_udev_list w2 = cougar_udev_list (Demo.vendor_probed 1) ∧
    cougar_g6_is_space w2 = cougar_g6_is_space (Demo.vendor_probed 1) ∧
    (∀ q, shared_mem (Demo.vendor_probed 1) !! q = None →
          shared_mem w2 !! q = None) ∧
    ∀ q s, shared_mem (Demo.vendor_probed 1) !! q = Some s →
      ∃ s2, shared_mem w2 !! q = Some s2 ∧ kref s2 = kref s ∧
            dev s2 = dev s ∧
            (s2 = s ∨ bound_to Demo.keyboard (Demo.both_probed 1) q ∧
                      enabled s2 = false).
Proof.
  apply (probe_release_round_trip 1 all_succeed Demo.keyboard
           (Demo.vendor_probed 1) (Demo.both_probed 1)).
  - apply vendor_probed_core_reachable.
  - by vm_compute.
  - by vm_compute.
Defined.
